(** * Discord Message Fetcher: a shallow embedding of [main.py]

    The development follows the Python script function by function:
    the URL pattern and [re.findall], [extract_links],
    [fetch_messages], [format_message], [save_messages], [save_links]
    and the part of [main] that composes them.  Python strings are
    [string]s, JSON objects are records whose optional keys are
    [option] fields, the [seen] set is a [gset string] and the file
    system is a [gmap] from paths to contents. *)

From Stdlib Require Import ZArith Ascii String.
From stdpp Require Import gmap strings list pretty.

Local Open Scope string_scope.
Local Open Scope list_scope.
Local Set Warnings "-clear-no-such-hyp".

(** ** Regular expressions, as [re] runs them *)

Module Re.

(** One item of a bracketed character set: a single character or a
    range [lo-hi] of code points. *)
Inductive cset_item : Type :=
| CLit (c : ascii)
| CRange (lo hi : ascii).

Definition item_mem (a : ascii) (i : cset_item) : bool :=
  match i with
  | CLit c => Ascii.eqb a c
  | CRange lo hi =>
      (N_of_ascii lo <=? N_of_ascii a)%N && (N_of_ascii a <=? N_of_ascii hi)%N
  end.

Definition cset_mem (items : list cset_item) (a : ascii) : bool :=
  existsb (item_mem a) items.

(** The fragment of the pattern language that [url_pattern] uses. *)
Inductive regex : Type :=
| RLit (c : ascii)
| RSet (items : list cset_item)
| RSeq (r1 r2 : regex)
| RAlt (r1 r2 : regex)
| ROpt (r : regex)
| RPlus (r : regex).

(** The loop of a greedy [+]: one round of [m], then as many further
    rounds as match, then the continuation [k]; a [None] from the
    further rounds falls back to [k].  It runs at most [n] further
    rounds and stops on a round that consumed nothing, as the engine
    does. *)
Fixpoint plus_loop (m : string -> (string -> option string) -> option string)
  (k : string -> option string) (n : nat) (s0 : string) {struct n}
  : option string :=
  m s0 (fun s1 =>
    match n with
    | S n' =>
        if (String.length s1 <? String.length s0)%nat
        then match plus_loop m k n' s1 with
             | Some e => Some e
             | None => k s1
             end
        else k s1
    | O => k s1
    end).

(** Backtracking matcher in continuation-passing style.  [rmatch r s k]
    matches [r] at the start of [s] and hands the unmatched rest to
    [k]; alternatives are tried left to right, [?] and [+] are greedy,
    and a [None] from [k] makes the matcher backtrack. *)
Fixpoint rmatch (r : regex) (s : string) (k : string -> option string)
  {struct r} : option string :=
  match r with
  | RLit c =>
      match s with
      | String a s' => if Ascii.eqb a c then k s' else None
      | EmptyString => None
      end
  | RSet items =>
      match s with
      | String a s' => if cset_mem items a then k s' else None
      | EmptyString => None
      end
  | RSeq r1 r2 => rmatch r1 s (fun s1 => rmatch r2 s1 k)
  | RAlt r1 r2 =>
      match rmatch r1 s k with
      | Some e => Some e
      | None => rmatch r2 s k
      end
  | ROpt r1 =>
      match rmatch r1 s k with
      | Some e => Some e
      | None => k s
      end
  | RPlus r1 => plus_loop (rmatch r1) k (String.length s) s
  end.

(** [Pattern.match]: the text matched at the start of [s], if any. *)
Definition match_at (r : regex) (s : string) : option string :=
  match rmatch r s Some with
  | Some rest =>
      Some (String.substring 0 (String.length s - String.length rest) s)
  | None => None
  end.

(** [Pattern.findall] for a pattern without groups: the matches found
    scanning left to right, each search resuming where the previous
    match ended.  [skip] counts the characters of the last match that
    are still to be stepped over. *)
Fixpoint findall_from (r : regex) (skip : nat) (s : string) : list string :=
  match s with
  | EmptyString => []
  | String _ s' =>
      match skip with
      | S n => findall_from r n s'
      | O =>
          match match_at r s with
          | Some m => m :: findall_from r (String.length m - 1) s'
          | None => findall_from r 0 s'
          end
      end
  end.

Definition findall (r : regex) (s : string) : list string :=
  findall_from r 0 s.

(** A literal word, character by character. *)
Fixpoint lit (w : string) (r : regex) : regex :=
  match w with
  | EmptyString => r
  | String c w' => RSeq (RLit c) (lit w' r)
  end.

End Re.

Import Re.

(** ** The URL pattern of [extract_links] *)

(** [[a-zA-Z]] *)
Definition set_alpha : list cset_item := [CRange "a" "z"; CRange "A" "Z"].
(** [[0-9]] *)
Definition set_digit : list cset_item := [CRange "0" "9"].
(** [[$-_@.&+]]: between brackets [$-_] is a range. *)
Definition set_sym : list cset_item :=
  [CRange "$" "_"; CLit "@"; CLit "."; CLit "&"; CLit "+"].
(** [[!*\(\),]] *)
Definition set_punct : list cset_item :=
  [CLit "!"; CLit "*"; CLit "("; CLit ")"; CLit ","].
(** [[0-9a-fA-F]] *)
Definition set_hex : list cset_item :=
  [CRange "0" "9"; CRange "a" "f"; CRange "A" "F"].

(** [(?:[a-zA-Z]|[0-9]|[$-_@.&+]|[!*\(\),]|(?:%[0-9a-fA-F][0-9a-fA-F]))] *)
Definition url_unit : regex :=
  RAlt (RSet set_alpha)
    (RAlt (RSet set_digit)
       (RAlt (RSet set_sym)
          (RAlt (RSet set_punct)
             (RSeq (RLit "%") (RSeq (RSet set_hex) (RSet set_hex)))))).

(** [http[s]?://(?:...)+] *)
Definition url_pattern : regex :=
  lit "http" (RSeq (ROpt (RSet [CLit "s"])) (lit "://" (RPlus url_unit))).

(** ** Message records

    The JSON objects of the API, with one field per key the script
    reads.  A key that may be absent is an [option]; the script reads
    it with [dict.get] and a default, or tests it with [in]. *)

Record author : Type := Author {
  username : option string
}.

Record attachment : Type := Attachment {
  att_filename : option string;
  att_url : option string
}.

(** The sub-record under an embed's [image], [thumbnail] or [video]. *)
Record media : Type := Media {
  media_url : option string
}.

Record embed : Type := Embed {
  embed_url : option string;
  embed_image : option media;
  embed_thumbnail : option media;
  embed_video : option media
}.

Record message : Type := Message {
  msg_id : string;
  msg_author : option author;
  msg_timestamp : option string;
  msg_content : option string;
  msg_attachments : option (list attachment);
  msg_embeds : option (list embed)
}.

(** Truth value of a Python string: every string but the empty one. *)
Definition truthy (s : string) : bool :=
  match s with
  | EmptyString => false
  | String _ _ => true
  end.

(** ** [extract_links] *)

(** Body of [for att in attachments]. *)
Definition attachment_step (links : list string) (att : attachment)
  : list string :=
  let url := default "" (att_url att) in
  if truthy url then links ++ [url] else links.

(** [if key in embed and 'url' in embed[key]: links.append(embed[key]['url'])] *)
Definition media_step (links : list string) (sub : option media)
  : list string :=
  match sub with
  | Some m =>
      match media_url m with
      | Some u => links ++ [u]
      | None => links
      end
  | None => links
  end.

(** Body of [for embed in embeds]. *)
Definition embed_step (links : list string) (e : embed) : list string :=
  let links :=
    match embed_url e with
    | Some u => if truthy u then links ++ [u] else links
    | None => links
    end in
  let links := media_step links (embed_image e) in
  let links := media_step links (embed_thumbnail e) in
  media_step links (embed_video e).

(** Body of [for message in messages]. *)
Definition message_step (links : list string) (m : message) : list string :=
  let content := default "" (msg_content m) in
  let found_urls := findall url_pattern content in
  let links := links ++ found_urls in
  let links := fold_left attachment_step (default [] (msg_attachments m)) links in
  fold_left embed_step (default [] (msg_embeds m)) links.

(** The list [links] when the first loop ends. *)
Definition collect_links (messages : list message) : list string :=
  fold_left message_step messages [].

(** Body of [for link in links], on the pair [(seen, unique_links)]. *)
Definition unique_step (st : gset string * list string) (link : string)
  : gset string * list string :=
  if decide (link ∈ st.1) then st
  else ({[link]} ∪ st.1, st.2 ++ [link]).

Definition unique (links : list string) : list string :=
  (fold_left unique_step links (∅, [])).2.

Definition extract_links (messages : list message) : list string :=
  unique (collect_links messages).

(** ** [format_message] *)

(** What [datetime.fromisoformat] returns. *)
Record datetime : Type := Datetime {
  year : nat;
  month : nat;
  day : nat;
  hour : nat;
  minute : nat;
  second : nat;
  microsecond : nat;
  utcoffset : option Z
}.

(** A field printed by [%m], [%d], [%H], [%M] or [%S]: in decimal,
    with a leading zero below 10. *)
Definition pad2 (n : nat) : string :=
  if (n <? 10)%nat then "0" +:+ pretty n else pretty n.

(** [dt.strftime('%Y-%m-%d %H:%M:%S')].  [%Y] is the year in decimal
    as the C library of the platform prints it: without padding, so
    a year below 1000 has fewer than four digits. *)
Definition strftime (dt : datetime) : string :=
  pretty (year dt) +:+ "-" +:+ pad2 (month dt) +:+ "-" +:+ pad2 (day dt)
  +:+ " " +:+ pad2 (hour dt) +:+ ":" +:+ pad2 (minute dt)
  +:+ ":" +:+ pad2 (second dt).

(** [dt.strftime('%Y-%m-%d %H:%M:%S UTC')] *)
Definition strftime_utc (dt : datetime) : string :=
  strftime dt +:+ " UTC".

(** [s.replace('Z', '+00:00')] *)
Fixpoint replace_Z (s : string) : string :=
  match s with
  | EmptyString => EmptyString
  | String c s' =>
      if Ascii.eqb c "Z" then "+00:00" +:+ replace_Z s'
      else String c (replace_Z s')
  end.

Definition newline : string := String "010" EmptyString.

Section Formatter.

(** [datetime.fromisoformat]; [None] stands for the exception it
    raises on a string it does not accept. *)
Variable fromisoformat : string -> option datetime.

(** The [try]/[except] of [format_message]. *)
Definition formatted_time (timestamp : string) : string :=
  match fromisoformat (replace_Z timestamp) with
  | Some dt => strftime_utc dt
  | None => timestamp
  end.

(** Body of [for att in attachments] in [format_message]. *)
Definition format_attachment (formatted : string) (att : attachment) : string :=
  formatted +:+ newline +:+ "    - " +:+ default "file" (att_filename att)
  +:+ ": " +:+ default "" (att_url att).

Definition format_message (m : message) : string :=
  let author := default (Author None) (msg_author m) in
  let username := default "Unknown" (username author) in
  let timestamp := default "" (msg_timestamp m) in
  let content := default "" (msg_content m) in
  let formatted :=
    "[" +:+ formatted_time timestamp +:+ "] " +:+ username +:+ ": " +:+ content in
  let attachments := default [] (msg_attachments m) in
  let formatted :=
    match attachments with
    | [] => formatted
    | _ :: _ =>
        fold_left format_attachment attachments
          (formatted +:+ newline +:+ "  Attachments:")
    end in
  let embeds := default [] (msg_embeds m) in
  match embeds with
  | [] => formatted
  | _ :: _ =>
      formatted +:+ newline +:+ "  Embeds: " +:+ pretty (length embeds)
      +:+ " embed(s)"
  end.

End Formatter.

(** ** The outside world: console, files, clock and the HTTP API *)

(** The [requests.get] call of [fetch_messages]: the URL, the
    [Authorization] header and the query parameters. *)
Record request : Type := Request {
  req_url : string;
  req_authorization : string;
  req_limit : Z;
  req_before : option string
}.

(** What [requests.get] gives back: a response with its status code,
    its decoded JSON body and its text, or a [RequestException]. *)
Inductive response : Type :=
| HttpResponse (status_code : Z) (json : list message) (text : string)
| RequestException (e : string).

Record world : Type := World {
  console : list string;           (* the lines printed so far *)
  files : gmap string string;      (* path -> content *)
  sent : list request;             (* the requests issued so far *)
  clock_reads : nat                (* calls of [datetime.now] so far *)
}.

(** How a computation ends: with a value, with [sys.exit(code)], or
    still looping when the fuel is spent. *)
Inductive result (A : Type) : Type :=
| Return (a : A)
| SysExit (code : Z)
| OutOfFuel.
Arguments Return {A} a.
Arguments SysExit {A} code.
Arguments OutOfFuel {A}.

Definition M (A : Type) : Type := world -> result A * world.

Global Instance M_ret : MRet M := fun A a w => (Return a, w).

Global Instance M_bind : MBind M := fun A B f c w =>
  match c w with
  | (Return a, w') => f a w'
  | (SysExit code, w') => (SysExit code, w')
  | (OutOfFuel, w') => (OutOfFuel, w')
  end.

(** The world after [lines] are printed, and after [req] is sent. *)
Definition log_lines (lines : list string) (w : world) : world :=
  World (console w ++ lines) (files w) (sent w) (clock_reads w).

Definition log_request (req : request) (w : world) : world :=
  World (console w) (files w) (sent w ++ [req]) (clock_reads w).

Definition print (line : string) : M unit := fun w =>
  (Return (), log_lines [line] w).

Definition sys_exit {A : Type} (code : Z) : M A := fun w => (SysExit code, w).

Definition out_of_fuel {A : Type} : M A := fun w => (OutOfFuel, w).

(** [f.write] calls reaching the disk when the [with] block closes. *)
Definition write_file (path content : string) : M unit := fun w =>
  (Return (), World (console w) (<[path := content]> (files w)) (sent w)
                (clock_reads w)).

(** The limit of [fetch_messages]: an [int], or [float('inf')]. *)
Inductive limit : Type :=
| Finite (n : Z)
| Infinite.

(** [remaining > 0] *)
Definition limit_pos (l : limit) : bool :=
  match l with
  | Finite n => (0 <? n)%Z
  | Infinite => true
  end.

(** [min(remaining, 100)] *)
Definition limit_min (l : limit) (k : Z) : Z :=
  match l with
  | Finite n => Z.min n k
  | Infinite => k
  end.

(** [remaining -= len(messages)] *)
Definition limit_sub (l : limit) (k : Z) : limit :=
  match l with
  | Finite n => Finite (n - k)
  | Infinite => Infinite
  end.

(** The variables of the loop in [fetch_messages]. *)
Record loop_state : Type := LoopState {
  all_messages : list message;
  remaining : limit;
  last_message_id : option string
}.

(** [s * n] *)
Fixpoint string_repeat (s : string) (n : nat) : string :=
  match n with
  | O => ""
  | S n' => s +:+ string_repeat s n'
  end.

(** [s.endswith(suffix)] *)
Definition endswith (s suffix : string) : bool :=
  (String.length suffix <=? String.length s)%nat
  && String.eqb
       (String.substring (String.length s - String.length suffix)
          (String.length suffix) s)
       suffix.

Section Program.

Variable fromisoformat : string -> option datetime.

(** The API server: its response to a request, given the requests it
    has answered before. *)
Variable server : list request -> request -> response.

(** [datetime.now()] at the n-th reading of the clock. *)
Variable now : nat -> datetime.

(** [open(path, 'w')]: [Some e] when it raises the [IOError] [e]. *)
Variable open_error : string -> option string.

Definition requests_get (req : request) : M response := fun w =>
  (Return (server (sent w) req), log_request req w).

Definition datetime_now : M datetime := fun w =>
  (Return (now (clock_reads w)),
   World (console w) (files w) (sent w) (S (clock_reads w))).

(** [params], built from [fetch_limit] and [last_message_id]; the
    cursor is added under [if last_message_id:]. *)
Definition make_request (url token : string) (st : loop_state) : request :=
  Request url token (limit_min (remaining st) 100)
    (match last_message_id st with
     | Some i => if truthy i then Some i else None
     | None => None
     end).

(** The [while remaining > 0] loop of [fetch_messages]; [fuel] bounds
    the number of rounds. *)
Fixpoint fetch_loop (fuel : nat) (url token : string) (st : loop_state)
  : M (list message) :=
  if limit_pos (remaining st) then
    match fuel with
    | O => out_of_fuel
    | S fuel' =>
        let fetch_limit := limit_min (remaining st) 100 in
        response ← requests_get (make_request url token st);
        match response with
        | HttpResponse status_code messages text =>
            if (status_code =? 200)%Z then
              match messages with
              | [] =>
                  print "No more messages to fetch";;
                  mret (all_messages st)
              | m :: ms =>
                  let st' :=
                    LoopState (all_messages st ++ messages)
                      (limit_sub (remaining st) (Z.of_nat (length messages)))
                      (Some (msg_id (List.last ms m))) in
                  print ("Fetched " +:+ pretty (length (all_messages st'))
                         +:+ " messages so far...");;
                  if (Z.of_nat (length messages) <? fetch_limit)%Z
                  then mret (all_messages st')
                  else fetch_loop fuel' url token st'
              end
            else if (status_code =? 401)%Z then
              print "Error: Invalid Discord token";;
              print "Please check your DISCORD_TOKEN in the .env file";;
              sys_exit 1
            else if (status_code =? 403)%Z then
              print "Error: Access forbidden - you don't have permission to access this channel";;
              sys_exit 1
            else if (status_code =? 404)%Z then
              print "Error: Channel not found - please check the channel ID";;
              sys_exit 1
            else
              print ("Error: HTTP " +:+ pretty status_code);;
              print text;;
              sys_exit 1
        | RequestException e =>
            print ("Network error: " +:+ e);;
            sys_exit 1
        end
    end
  else mret (all_messages st).

Definition fetch_messages (fuel : nat) (channel_id token : string)
  (lim : limit) : M (list message) :=
  let url :=
    "https://discord.com/api/v10/channels/" +:+ channel_id +:+ "/messages" in
  print ("Fetching messages from channel " +:+ channel_id +:+ "...");;
  fetch_loop fuel url token (LoopState [] lim None).

(** The four [f.write] calls that open either export. *)
Definition write_header (title count_label : string) (count : nat)
  (t : datetime) : string :=
  let f := "" in
  let f := f +:+ (title +:+ newline) in
  let f := f +:+ (count_label +:+ pretty count +:+ newline) in
  let f := f +:+ ("Exported on: " +:+ strftime t +:+ newline) in
  f +:+ (string_repeat "=" 80 +:+ newline +:+ newline).

Definition save_links (links : list string) (output_file : string) : M unit :=
  match open_error output_file with
  | None =>
      t ← datetime_now;
      let f := write_header "Extracted Links" "Total links: " (length links) t in
      let f := fold_left (fun f link => f +:+ (link +:+ newline)) links f in
      write_file output_file f;;
      print ("Successfully saved " +:+ pretty (length links) +:+ " links to "
             +:+ output_file)
  | Some e =>
      print ("Error saving links file: " +:+ e);;
      sys_exit 1
  end.

Definition save_messages (messages : list message) (output_file : string)
  : M unit :=
  match open_error output_file with
  | None =>
      t ← datetime_now;
      let f :=
        write_header "Discord Messages Export" "Total messages: "
          (length messages) t in
      let f :=
        fold_left
          (fun f message =>
             f +:+ (format_message fromisoformat message +:+ newline +:+ newline))
          (rev messages) f in
      write_file output_file f;;
      print (newline +:+ "Successfully saved " +:+ pretty (length messages)
             +:+ " messages to " +:+ output_file)
  | Some e =>
      print ("Error saving file: " +:+ e);;
      sys_exit 1
  end.

(** [main] from the point where the arguments are parsed: the
    [.txt] extension, the summary, then fetch, save and extract. *)
Definition main_body (fuel : nat) (token channel_id : string) (lim : limit)
  (output : string) (extract : bool) : M unit :=
  let limit_display :=
    match lim with
    | Finite n => pretty n
    | Infinite => "All available messages"
    end in
  let output_file :=
    if endswith output ".txt" then output else output +:+ ".txt" in
  print (newline +:+ "Channel ID: " +:+ channel_id);;
  print ("Messages to fetch: " +:+ limit_display);;
  print ("Output file: " +:+ output_file +:+ newline);;
  messages ← fetch_messages fuel channel_id token lim;
  match messages with
  | _ :: _ =>
      save_messages messages output_file;;
      if extract then
        print (newline +:+ "Extracting links...");;
        let links := extract_links messages in
        match links with
        | _ :: _ => save_links links "links.txt"
        | [] => print "No links found in messages"
        end
      else mret ()
  | [] => print "No messages were fetched"
  end;;
  print (newline +:+ "Done!").

End Program.

(** ** Reference definitions

    What the pattern and the extractor compute, written directly; the
    theorems below compare them with the code above. *)

(** The characters the four bracketed sets of [url_unit] accept. *)
Definition url_char (a : ascii) : bool :=
  cset_mem set_alpha a || cset_mem set_digit a || cset_mem set_sym a
  || cset_mem set_punct a.

(** The longest run of [url_char]s at the start of [s], and what
    follows it. *)
Fixpoint take_run (s : string) : string :=
  match s with
  | String a s' => if url_char a then String a (take_run s') else ""
  | EmptyString => ""
  end.

Fixpoint drop_run (s : string) : string :=
  match s with
  | String a s' => if url_char a then drop_run s' else s
  | EmptyString => ""
  end.

(** [s] without its prefix [w], when it starts with [w]. *)
Fixpoint strip_prefix (w s : string) : option string :=
  match w, s with
  | EmptyString, _ => Some s
  | String c w', String a s' =>
      if Ascii.eqb a c then strip_prefix w' s' else None
  | String _ _, EmptyString => None
  end.

(** The scheme at the start of [s] and the text after it. *)
Definition scheme_of (s : string) : option (string * string) :=
  match strip_prefix "https://" s with
  | Some rest => Some ("https://", rest)
  | None =>
      match strip_prefix "http://" s with
      | Some rest => Some ("http://", rest)
      | None => None
      end
  end.

(** The URL at the start of [s]: a scheme followed by the longest
    run of [url_char]s, which must not be empty. *)
Definition url_at (s : string) : option string :=
  match scheme_of s with
  | Some (scheme, rest) =>
      if truthy (take_run rest) then Some (scheme +:+ take_run rest) else None
  | None => None
  end.

(** [url_char] by code point: [!], the range from [$] to [_], and the
    lower-case letters. *)
Definition url_code (n : N) : bool :=
  ((n =? 33) || ((36 <=? n) && (n <=? 95)) || ((97 <=? n) && (n <=? 122)))%N.

Fixpoint string_forall (P : ascii -> bool) (s : string) : bool :=
  match s with
  | EmptyString => true
  | String a s' => P a && string_forall P s'
  end.

Definition starts_with (P : ascii -> bool) (s : string) : bool :=
  match s with
  | EmptyString => false
  | String a _ => P a
  end.

(** [u] occurs in [s] as a scheme followed by a non-empty run of
    [url_char]s that the next character of [s] does not extend. *)
Definition url_occurrence (s u : string) : Prop :=
  exists pre post scheme body,
    s = pre +:+ u +:+ post /\ u = scheme +:+ body
    /\ (scheme = "http://" \/ scheme = "https://")
    /\ truthy body = true
    /\ string_forall url_char body = true
    /\ starts_with url_char post = false.

(** The character set as the specification words it: letters, digits
    and the symbols [$ - _ @ . & + ! * ( ) ,]. *)
Definition claimed_char (a : ascii) : bool :=
  cset_mem [CRange "a" "z"; CRange "A" "Z"; CRange "0" "9";
            CLit "$"; CLit "-"; CLit "_"; CLit "@"; CLit "."; CLit "&";
            CLit "+"; CLit "!"; CLit "*"; CLit "("; CLit ")"; CLit ","] a.

(** A body made of [claimed_char]s and [%XX] pairs only. *)
Fixpoint claimed_body (s : string) : bool :=
  match s with
  | EmptyString => true
  | String a s' =>
      (claimed_char a
       || (Ascii.eqb a "%"
           && match s' with
              | String h1 (String h2 _) =>
                  cset_mem set_hex h1 && cset_mem set_hex h2
              | _ => false
              end))
      && claimed_body s'
  end.

Definition claimed_url (u : string) : bool :=
  match scheme_of u with
  | Some (_, body) => truthy body && claimed_body body
  | None => false
  end.

(** The links of one message, in the order the specification lists
    them. *)
Definition content_links (m : message) : list string :=
  findall url_pattern (default "" (msg_content m)).

Definition attachment_links (m : message) : list string :=
  flat_map
    (fun att =>
       match att_url att with
       | Some u => if truthy u then [u] else []
       | None => []
       end)
    (default [] (msg_attachments m)).

Definition media_links (sub : option media) : list string :=
  match sub with
  | Some (Media (Some u)) => [u]
  | _ => []
  end.

Definition embed_links (e : embed) : list string :=
  match embed_url e with
  | Some u => if truthy u then [u] else []
  | None => []
  end
  ++ media_links (embed_image e)
  ++ media_links (embed_thumbnail e)
  ++ media_links (embed_video e).

Definition message_links (m : message) : list string :=
  content_links m ++ attachment_links m
  ++ flat_map embed_links (default [] (msg_embeds m)).

(** An embed sub-record whose [url] key holds the empty string. *)
Definition empty_media_url (sub : option media) : Prop :=
  sub = Some (Media (Some "")).

(** The responses to the requests [reqs], issued in turn to a server
    that has answered [hist] before. *)
Fixpoint answers (server : list request -> request -> response)
  (hist reqs : list request) : list response :=
  match reqs with
  | [] => []
  | req :: rest => server hist req :: answers server (hist ++ [req]) rest
  end.

(** The page of a successful response. *)
Definition page_of (resp : response) : option (list message) :=
  match resp with
  | HttpResponse status_code messages _ =>
      if (status_code =? 200)%Z then Some messages else None
  | RequestException _ => None
  end.

(** A chain of page requests with their responses: each request asks
    for [min(remaining, 100)] messages with the current cursor, and a
    request has a successor only after a non-empty page, which lowers
    [remaining] by its size and moves the cursor to the identifier of
    its last message. *)
Fixpoint chained (url token : string) (remaining : limit)
  (cursor : option string) (exchanges : list (request * response)) : Prop :=
  match exchanges with
  | [] => True
  | (req, resp) :: rest =>
      req = Request url token (limit_min remaining 100) cursor
      /\ match rest with
         | [] => True
         | _ :: _ =>
             exists page,
               page_of resp = Some page /\ page <> []
               /\ chained url token
                    (limit_sub remaining (Z.of_nat (length page)))
                    (msg_id <$> last page) rest
         end
  end.

(** The loop variables after the non-empty page [page]. *)
Definition next_state (st : loop_state) (page : list message) : loop_state :=
  LoopState (all_messages st ++ page)
    (limit_sub (remaining st) (Z.of_nat (length page)))
    (msg_id <$> last page).

(** The progress line printed after a page. *)
Definition progress_line (count : nat) : string :=
  "Fetched " +:+ pretty count +:+ " messages so far...".

(** Every message a server returns carries a non-empty identifier. *)
Definition nonempty_ids (server : list request -> request -> response) : Prop :=
  forall hist req status_code messages text m,
    server hist req = HttpResponse status_code messages text ->
    m ∈ messages -> msg_id m <> "".

(** [count] messages reach the limit. *)
Definition limit_reached (lim : limit) (count : nat) : Prop :=
  match lim with
  | Finite n => (n <= Z.of_nat count)%Z
  | Infinite => False
  end.

(** The failures of a page request, after section 7 of the
    specification. *)
Inductive fetch_error : Type :=
| AuthenticationError
| AuthorizationError
| NotFoundError
| HttpError (status : Z) (body : string)
| NetworkError (cause : string).

(** The failure a response stands for; [None] for status 200. *)
Definition error_of (resp : response) : option fetch_error :=
  match resp with
  | HttpResponse status_code _ text =>
      if (status_code =? 200)%Z then None
      else if (status_code =? 401)%Z then Some AuthenticationError
      else if (status_code =? 403)%Z then Some AuthorizationError
      else if (status_code =? 404)%Z then Some NotFoundError
      else Some (HttpError status_code text)
  | RequestException e => Some (NetworkError e)
  end.

(** The lines that report each failure on the console. *)
Definition error_report (e : fetch_error) : list string :=
  match e with
  | AuthenticationError =>
      ["Error: Invalid Discord token";
       "Please check your DISCORD_TOKEN in the .env file"]
  | AuthorizationError =>
      ["Error: Access forbidden - you don't have permission to access this channel"]
  | NotFoundError =>
      ["Error: Channel not found - please check the channel ID"]
  | HttpError status body => ["Error: HTTP " +:+ pretty status; body]
  | NetworkError cause => ["Network error: " +:+ cause]
  end.

(** What [main] does once the fetch is over. *)
Definition after_fetch (fromisoformat : string -> option datetime)
  (now : nat -> datetime) (open_error : string -> option string)
  (output_file : string) (extract : bool) (messages : list message)
  : M unit :=
  match messages with
  | _ :: _ =>
      save_messages fromisoformat now open_error messages output_file;;
      if extract then
        print (newline +:+ "Extracting links...");;
        let links := extract_links messages in
        match links with
        | _ :: _ => save_links now open_error links "links.txt"
        | [] => print "No links found in messages"
        end
      else mret ()
  | [] => print "No messages were fetched"
  end;;
  print (newline +:+ "Done!").

(** The strings of [blocks] one after the other. *)
Definition join (blocks : list string) : string :=
  foldr String.append "" blocks.

(** The block [save_messages] writes for a message. *)
Definition message_block (fromisoformat : string -> option datetime)
  (m : message) : string :=
  format_message fromisoformat m +:+ newline +:+ newline.

(** ** [load_environment] and the head of [main] *)

(** What [argparse] hands to [main]: [args.limit], [args.output] and
    [args.extract_links]. *)
Record args : Type := Args {
  limit_arg : string;
  output_arg : string;
  extract_links_arg : bool
}.

(** [str.lower] on the letters [A] to [Z]; other bytes are kept.  The
    script only compares the result with ['all'], and no character
    outside ASCII lowers to [a] or [l]. *)
Definition ascii_lower (a : ascii) : ascii :=
  if (65 <=? N_of_ascii a)%N && (N_of_ascii a <=? 90)%N
  then ascii_of_N (N_of_ascii a + 32)
  else a.

Fixpoint lower (s : string) : string :=
  match s with
  | EmptyString => EmptyString
  | String a s' => String (ascii_lower a) (lower s')
  end.

(** [not value] for what [os.getenv] returns: [None] or a string. *)
Definition missing (value : option string) : bool :=
  match value with
  | Some s => negb (truthy s)
  | None => true
  end.

Section Startup.

Variable fromisoformat : string -> option datetime.
Variable server : list request -> request -> response.
Variable now : nat -> datetime.
Variable open_error : string -> option string.

(** [os.getenv] once [load_dotenv] has run. *)
Variable getenv : string -> option string.

(** [int(s)]; [None] stands for its [ValueError]. *)
Variable python_int : string -> option Z.

Definition load_environment : M (string * string) :=
  let token := getenv "DISCORD_TOKEN" in
  let channel_id := getenv "CHANNEL_ID" in
  if missing token then
    print "Error: DISCORD_TOKEN not found in .env file";;
    print "Please create a .env file with your Discord token";;
    print "See README.md for instructions";;
    sys_exit 1
  else if missing channel_id then
    print "Error: CHANNEL_ID not found in .env file";;
    print "Please add CHANNEL_ID to your .env file";;
    print "See README.md for instructions";;
    sys_exit 1
  else mret (default "" token, default "" channel_id).

(** The limit of [main], from [args.limit]. *)
Definition parse_limit (arg : string) : M limit :=
  let limit_str := lower arg in
  if String.eqb limit_str "all" then mret Infinite
  else
    match python_int arg with
    | Some n =>
        if (n <=? 0)%Z then
          print "Error: Number of messages must be greater than 0";;
          sys_exit 1
        else mret (Finite n)
    | None =>
        print ("Error: Invalid limit value '" +:+ arg
               +:+ "'. Use a number or 'all'");;
        sys_exit 1
    end.

Definition main (fuel : nat) (a : args) : M unit :=
  print (string_repeat "=" 80);;
  print "Discord Message Fetcher";;
  print (string_repeat "=" 80);;
  env ← load_environment;
  lim ← parse_limit (limit_arg a);
  main_body fromisoformat server now open_error fuel env.1 env.2 lim
    (output_arg a) (extract_links_arg a).

End Startup.

(** ** More reference definitions *)

(** The name [main] saves the messages under. *)
Definition output_file_name (output : string) : string :=
  if endswith output ".txt" then output else output +:+ ".txt".

(** The three lines [main] prints before the fetch. *)
Definition summary_lines (channel_id : string) (lim : limit)
  (output : string) : list string :=
  [newline +:+ "Channel ID: " +:+ channel_id;
   "Messages to fetch: "
   +:+ match lim with
       | Finite n => pretty n
       | Infinite => "All available messages"
       end;
   "Output file: " +:+ output_file_name output +:+ newline].

(** The banner [main] prints first. *)
Definition banner : list string :=
  [string_repeat "=" 80; "Discord Message Fetcher"; string_repeat "=" 80].

(** The line of an attachment in a rendered message. *)
Definition attachment_line (att : attachment) : string :=
  newline +:+ "    - " +:+ default "file" (att_filename att) +:+ ": "
  +:+ default "" (att_url att).

Definition attachments_block (atts : list attachment) : string :=
  match atts with
  | [] => ""
  | _ :: _ => newline +:+ "  Attachments:" +:+ join (map attachment_line atts)
  end.

Definition embeds_line (embeds : list embed) : string :=
  match embeds with
  | [] => ""
  | _ :: _ =>
      newline +:+ "  Embeds: " +:+ pretty (length embeds) +:+ " embed(s)"
  end.

(** The first line of a rendered message. *)
Definition first_line (fromisoformat : string -> option datetime)
  (m : message) : string :=
  "[" +:+ formatted_time fromisoformat (default "" (msg_timestamp m)) +:+ "] "
  +:+ default "Unknown" (username (default (Author None) (msg_author m)))
  +:+ ": " +:+ default "" (msg_content m).

(** The content of the two export files. *)
Definition messages_export (fromisoformat : string -> option datetime)
  (t : datetime) (messages : list message) : string :=
  write_header "Discord Messages Export" "Total messages: " (length messages) t
  +:+ join (map (message_block fromisoformat) (rev messages)).

Definition links_export (t : datetime) (links : list string) : string :=
  write_header "Extracted Links" "Total links: " (length links) t
  +:+ join (map (fun link => link +:+ newline) links).

(** A byte other than [Z]. *)
Definition not_Z (a : ascii) : bool := negb (Ascii.eqb a "Z").

(** A server that returns at most as many messages as a request with
    a positive [limit] asks for. *)
Definition honours_limit (server : list request -> request -> response)
  : Prop :=
  forall hist req status_code page text,
    (0 < req_limit req)%Z ->
    server hist req = HttpResponse status_code page text ->
    (Z.of_nat (length page) <= req_limit req)%Z.

(** The request the script sends for the state [st]. *)
Definition well_formed_request (url token : string) (req : request) : Prop :=
  req_url req = url /\ req_authorization req = token
  /\ (1 <= req_limit req <= 100)%Z.

(** The token, the channel and the limit are usable. *)
Definition config_ok (getenv : string -> option string)
  (python_int : string -> option Z) (a : args) : bool :=
  negb (missing (getenv "DISCORD_TOKEN"))
  && negb (missing (getenv "CHANNEL_ID"))
  && (String.eqb (lower (limit_arg a)) "all"
      || match python_int (limit_arg a) with
         | Some n => (0 <? n)%Z
         | None => false
         end).

(** The limit a usable configuration stands for. *)
Definition config_limit (python_int : string -> option Z) (a : args) : limit :=
  if String.eqb (lower (limit_arg a)) "all" then Infinite
  else Finite (default 0%Z (python_int (limit_arg a))).

(** [s] without its first [n] characters. *)
Fixpoint string_drop (n : nat) (s : string) : string :=
  match n, s with
  | O, _ => s
  | S n', String _ s' => string_drop n' s'
  | S _, EmptyString => EmptyString
  end.

(** The text [before], then each match followed by its gap. *)
Definition weave (before : string) (matches gaps : list string) : string :=
  before +:+ join (zip_with String.append matches gaps).

(** ** Reading a rendered time back *)


(** The number a string of decimal digits stands for. *)
Fixpoint digits_value_from (acc : nat) (s : string) : option nat :=
  match s with
  | EmptyString => Some acc
  | String a s' =>
      match Ascii.is_nat a with
      | Some d => digits_value_from (10 * acc + d) s'
      | None => None
      end
  end.

Definition digits_value (s : string) : option nat :=
  match s with
  | EmptyString => None
  | String _ _ => digits_value_from 0 s
  end.

(** [s] split before its first [-]. *)
Fixpoint until_dash (s : string) : string * string :=
  match s with
  | EmptyString => (EmptyString, EmptyString)
  | String a s' =>
      if Ascii.eqb a "-" then (EmptyString, s)
      else let (p, r) := until_dash s' in (String a p, r)
  end.

(** Whether a text starts with the digit [0]. *)
Definition leading_zero (s : string) : bool :=
  match s with
  | EmptyString => false
  | String a _ => Ascii.eqb a "0"
  end.

(** The year, month, day, hour, minute and second of a text of the
    form [<year>-MM-DD HH:MM:SS UTC], with the year in digits without
    a leading zero and two digits for every other field; [None] for any
    other text. *)
Definition read_time (s : string) : option (nat * nat * nat * nat * nat * nat) :=
  let (y, rest) := until_dash s in
  if negb (leading_zero y)
     && (String.length rest =? 19)%nat
     && String.eqb (String.substring 0 1 rest) "-"
     && String.eqb (String.substring 3 1 rest) "-"
     && String.eqb (String.substring 6 1 rest) " "
     && String.eqb (String.substring 9 1 rest) ":"
     && String.eqb (String.substring 12 1 rest) ":"
     && String.eqb (String.substring 15 4 rest) " UTC"
  then
    match digits_value y,
          digits_value (String.substring 1 2 rest),
          digits_value (String.substring 4 2 rest),
          digits_value (String.substring 7 2 rest),
          digits_value (String.substring 10 2 rest),
          digits_value (String.substring 13 2 rest) with
    | Some ye, Some mo, Some da, Some ho, Some mi, Some se =>
        Some (ye, mo, da, ho, mi, se)
    | _, _, _, _, _, _ => None
    end
  else None.


(** ** Servers to run the script against

    Inputs for the examples below, not part of the script.  A channel
    server answers as the API does: the messages of the channel newest
    first, at most [limit] of them, older than the [before] cursor; a
    short or empty page is the end of the channel. *)

Fixpoint older_than (cursor : string) (channel : list message)
  : list message :=
  match channel with
  | [] => []
  | m :: rest =>
      if String.eqb (msg_id m) cursor then rest else older_than cursor rest
  end.

Definition channel_server (channel : list message)
  : list request -> request -> response :=
  fun _ req =>
    let older :=
      match req_before req with
      | Some cursor => older_than cursor channel
      | None => channel
      end in
    HttpResponse 200 (take (Z.to_nat (req_limit req)) older) "".

(** A server that answers every request with the same response. *)
Definition constant_server (resp : response)
  : list request -> request -> response :=
  fun _ _ => resp.

(** A channel of [n] messages, newest first, numbered [n] down to 1. *)
Definition sample_channel (n : nat) : list message :=
  map (fun i => Message (pretty i) None None (Some ("message " +:+ pretty i))
                  None None)
      (rev (seq 1 n)).

Definition no_parse : string -> option datetime := fun _ => None.

Definition noon : nat -> datetime :=
  fun _ => Datetime 2024 1 2 12 0 0 0 None.

Definition writable : string -> option string := fun _ => None.

Definition empty_world : world := World [] ∅ [] 0.

(** An environment with both variables, and a decimal reader for the
    examples. *)
Definition sample_env : string -> option string :=
  fun name =>
    if String.eqb name "DISCORD_TOKEN" then Some "token"
    else if String.eqb name "CHANNEL_ID" then Some "42"
    else None.

Definition no_env : string -> option string := fun _ => None.

Definition sample_int : string -> option Z :=
  fun s =>
    if String.eqb s "250" then Some 250%Z
    else if String.eqb s "0" then Some 0%Z
    else None.

(** A channel of two messages with links in their content. *)
Definition link_channel : list message :=
  [Message "2" None None (Some "see https://a.co/x") None None;
   Message "1" None None (Some "http://b.io and https://a.co/x") None None].

(** A file system where [messages.txt] cannot be opened. *)
Definition read_only : string -> option string :=
  fun path =>
    if String.eqb path "messages.txt" then Some "Permission denied" else None.

(** A parser that knows one timestamp, for the examples. *)
Definition sample_parse : string -> option datetime :=
  fun s =>
    if String.eqb s "2024-01-02T03:04:05+00:00"
    then Some (Datetime 2024 1 2 3 4 5 0 (Some 0%Z))
    else None.

(** ** The URL pattern *)

Lemma rmatch_lit w r s k :
  rmatch (lit w r) s k =
  match strip_prefix w s with
  | Some rest => rmatch r rest k
  | None => None
  end.
Proof.
  revert s. induction w as [|c w IH]; intros s; simpl; [done|].
  destruct s as [|a s]; [done|].
  destruct (Ascii.eqb a c); [apply IH|done].
Qed.

Lemma sym_accepts_percent : cset_mem set_sym "%" = true.
Proof. reflexivity. Qed.

(** One round of [url_unit] consumes exactly one [url_char]: the
    [%XX] branch is never reached, since [%] is in the range [$-_]. *)
Lemma rmatch_url_unit a s k :
  (forall s', k s' <> None) ->
  rmatch url_unit (String a s) k = if url_char a then k s else None.
Proof.
  intros Hk. unfold url_unit, url_char. cbn [rmatch].
  destruct (cset_mem set_alpha a); cbn [orb].
  { destruct (k s) eqn:E; [done|]. by apply Hk in E. }
  destruct (cset_mem set_digit a); cbn [orb].
  { destruct (k s) eqn:E; [done|]. by apply Hk in E. }
  destruct (cset_mem set_sym a) eqn:Hsym; cbn [orb].
  { destruct (k s) eqn:E; [done|]. by apply Hk in E. }
  destruct (cset_mem set_punct a); cbn [orb].
  { destruct (k s) eqn:E; [done|]. by apply Hk in E. }
  destruct (Ascii.eqb_spec a "%") as [->|_]; [|done].
  by rewrite sym_accepts_percent in Hsym.
Qed.

Lemma rmatch_url_unit_empty k : rmatch url_unit "" k = None.
Proof. reflexivity. Qed.

Lemma plus_loop_url_unit n s :
  (String.length s <= n)%nat ->
  plus_loop (rmatch url_unit) Some n s =
  match s with
  | String a s' => if url_char a then Some (drop_run s') else None
  | EmptyString => None
  end.
Proof.
  revert s. induction n as [|n IH]; intros s Hn.
  - destruct s; [done | simpl in Hn; lia].
  - destruct s as [|a s]; [done|].
    cbn [plus_loop]. rewrite rmatch_url_unit.
    2:{ intros s'. destruct (_ <? _)%nat; [|done].
        by destruct (plus_loop _ _ _ _). }
    destruct (url_char a); [|done].
    assert ((String.length s <? String.length (String a s))%nat = true) as ->
      by (apply Nat.ltb_lt; simpl; lia).
    rewrite IH by (simpl in Hn; lia).
    destruct s as [|b s]; [done|]. simpl. by destruct (url_char b).
Qed.

Lemma string_app_cons a (s t : string) :
  String a s +:+ t = String a (s +:+ t).
Proof. reflexivity. Qed.

Lemma string_app_nil_l (s : string) : "" +:+ s = s.
Proof. reflexivity. Qed.

Lemma string_app_nil_r (s : string) : s +:+ "" = s.
Proof. induction s as [|a s IH]; [done|]. by rewrite string_app_cons, IH. Qed.

Lemma string_length_app (s1 s2 : string) :
  String.length (s1 +:+ s2) = (String.length s1 + String.length s2)%nat.
Proof.
  induction s1 as [|a s1 IH]; [done|].
  rewrite string_app_cons. simpl. by rewrite IH.
Qed.

Lemma string_app_assoc (s1 s2 s3 : string) :
  (s1 +:+ s2) +:+ s3 = s1 +:+ (s2 +:+ s3).
Proof.
  induction s1 as [|a s1 IH]; [done|].
  by rewrite !string_app_cons, IH.
Qed.

Lemma take_drop_run s : take_run s +:+ drop_run s = s.
Proof.
  induction s as [|a s IH]; [done|]. simpl.
  destruct (url_char a); [by rewrite string_app_cons, IH | done].
Qed.

Lemma plus_loop_url_run s :
  plus_loop (rmatch url_unit) Some (String.length s) s =
  if truthy (take_run s) then Some (drop_run s) else None.
Proof.
  rewrite plus_loop_url_unit by done.
  destruct s as [|a s]; [done|]. simpl. by destruct (url_char a).
Qed.

Lemma strip_prefix_app w1 w2 s :
  strip_prefix (w1 +:+ w2) s =
  match strip_prefix w1 s with
  | Some rest => strip_prefix w2 rest
  | None => None
  end.
Proof.
  revert s. induction w1 as [|c w1 IH]; intros s; [done|].
  rewrite string_app_cons. simpl.
  destruct s as [|a s]; [done|].
  destruct (Ascii.eqb a c); [apply IH|done].
Qed.

Lemma strip_prefix_Some w s rest :
  strip_prefix w s = Some rest -> s = w +:+ rest.
Proof.
  revert s. induction w as [|c w IH]; intros s; simpl.
  - by intros [= ->].
  - destruct s as [|a s]; [done|].
    destruct (Ascii.eqb_spec a c) as [->|]; [|done].
    intros H. by rewrite string_app_cons, (IH _ H).
Qed.

(** What the whole pattern leaves unmatched. *)
Lemma rmatch_url_pattern s :
  rmatch url_pattern s Some =
  match scheme_of s with
  | Some (_, rest) => if truthy (take_run rest) then Some (drop_run rest) else None
  | None => None
  end.
Proof.
  unfold url_pattern, scheme_of. rewrite rmatch_lit.
  change "https://" with ("http" +:+ "s://").
  change "http://" with ("http" +:+ "://").
  rewrite !strip_prefix_app.
  destruct (strip_prefix "http" s) as [s0|]; [|done].
  cbn [rmatch]. rewrite !rmatch_lit. cbn [rmatch].
  destruct s0 as [|a s1]; [done|].
  change (strip_prefix "s://" (String a s1))
    with (if Ascii.eqb a "s" then strip_prefix "://" s1 else None).
  unfold cset_mem, existsb, item_mem. rewrite orb_false_r.
  destruct (Ascii.eqb_spec a "s") as [->|Hs].
  - change (strip_prefix "://" (String "s" s1)) with (@None string).
    rewrite ?rmatch_lit. cbn [rmatch].
    destruct (strip_prefix "://" s1) as [rest|]; [|done].
    rewrite plus_loop_url_run. by destruct (truthy (take_run rest)).
  - rewrite ?rmatch_lit. cbn [rmatch].
    destruct (strip_prefix "://" (String a s1)) as [rest|]; [|done].
    apply plus_loop_url_run.
Qed.

Lemma substring_prefix (p q : string) :
  String.substring 0 (String.length (p +:+ q) - String.length q) (p +:+ q) = p.
Proof.
  rewrite string_length_app.
  replace (String.length p + String.length q - String.length q)%nat
    with (String.length p) by lia.
  induction p as [|a p IH].
  - by destruct q.
  - rewrite string_app_cons. simpl. by rewrite IH.
Qed.

Lemma scheme_of_Some s scheme rest :
  scheme_of s = Some (scheme, rest) ->
  s = scheme +:+ rest /\ (scheme = "http://" \/ scheme = "https://").
Proof.
  unfold scheme_of.
  destruct (strip_prefix "https://" s) as [r1|] eqn:E1.
  - intros [= <- <-]. split; [by apply strip_prefix_Some | by right].
  - destruct (strip_prefix "http://" s) as [r2|] eqn:E2; [|done].
    intros [= <- <-]. split; [by apply strip_prefix_Some | by left].
Qed.

(** At any position the pattern matches exactly the URL there. *)
Lemma match_at_url_pattern s : match_at url_pattern s = url_at s.
Proof.
  unfold match_at, url_at. rewrite rmatch_url_pattern.
  destruct (scheme_of s) as [[scheme rest]|] eqn:E; [|done].
  destruct (truthy (take_run rest)); [|done].
  apply scheme_of_Some in E as [-> _].
  replace (scheme +:+ rest)
    with ((scheme +:+ take_run rest) +:+ drop_run rest)
    by (by rewrite string_app_assoc, take_drop_run).
  by rewrite substring_prefix.
Qed.

Lemma take_run_forall s : string_forall url_char (take_run s) = true.
Proof.
  induction s as [|a s IH]; [done|]. simpl.
  destruct (url_char a) eqn:E; [simpl; by rewrite E | done].
Qed.

Lemma drop_run_start s : starts_with url_char (drop_run s) = false.
Proof.
  induction s as [|a s IH]; [done|]. simpl.
  destruct (url_char a) eqn:E; [done | simpl; by rewrite E].
Qed.

(** The shape of a URL found at the start of [s]. *)
Lemma url_at_Some s u :
  url_at s = Some u ->
  exists scheme body post,
    s = u +:+ post /\ u = scheme +:+ body
    /\ (scheme = "http://" \/ scheme = "https://")
    /\ truthy body = true
    /\ string_forall url_char body = true
    /\ starts_with url_char post = false.
Proof.
  unfold url_at. destruct (scheme_of s) as [[scheme rest]|] eqn:E; [|done].
  destruct (truthy (take_run rest)) eqn:Ht; [|done]. intros [= <-].
  apply scheme_of_Some in E as [-> Hs].
  exists scheme, (take_run rest), (drop_run rest).
  rewrite string_app_assoc, take_drop_run.
  split_and!; auto using take_run_forall, drop_run_start.
Qed.

Lemma url_occurrence_cons a s u :
  url_occurrence s u -> url_occurrence (String a s) u.
Proof.
  intros (pre & post & scheme & body & -> & Hrest).
  exists (String a pre), post, scheme, body. by rewrite string_app_cons.
Qed.

Lemma findall_from_url_pattern s skip u :
  u ∈ findall_from url_pattern skip s -> url_occurrence s u.
Proof.
  revert skip. induction s as [|a s IH]; intros skip; simpl.
  { intros H. by apply elem_of_nil in H. }
  destruct skip as [|n]; [|by eauto using url_occurrence_cons].
  rewrite match_at_url_pattern.
  destruct (url_at (String a s)) as [m|] eqn:E;
    [|by eauto using url_occurrence_cons].
  intros [->|H]%elem_of_cons; [|by eauto using url_occurrence_cons].
  destruct (url_at_Some _ _ E) as (scheme & body & post & Hs & Hrest).
  exists "", post, scheme, body. by rewrite string_app_nil_l.
Qed.

Lemma url_char_code a : url_char a = url_code (N_of_ascii a).
Proof. by destruct a as [[] [] [] [] [] [] [] []]. Qed.

(** C1, as the code has it: at every position of a text the pattern
    matches exactly when the text there starts with [http://] or
    [https://] followed by at least one accepted character, and the
    match is the scheme with the longest run of accepted characters;
    the accepted characters are [!], every character from [$] to [_]
    (code points 36 to 95, among them [/ : ; < = > ? [ \ ] ^ ' %] and
    a [%] not followed by two hex digits) and the lower-case letters;
    every URL of [findall] occurs in the content in that shape, and
    the character after it, if any, is not an accepted one. *)
Theorem url_pattern_matches :
  (forall s, match_at url_pattern s = url_at s)
  /\ (forall a, url_char a = url_code (N_of_ascii a))
  /\ (forall content u,
        u ∈ findall url_pattern content -> url_occurrence content u).
Proof.
  split_and!.
  - apply match_at_url_pattern.
  - apply url_char_code.
  - intros content u. apply findall_from_url_pattern.
Qed.

(** [url_pattern_matches] on a text with a URL in the middle. *)
Lemma url_pattern_matches_witness :
  url_occurrence "see https://a.co/x?y=1 there" "https://a.co/x?y=1".
Proof.
  apply (proj2 (proj2 url_pattern_matches) "see https://a.co/x?y=1 there").
  vm_compute. apply list_elem_of_here.
Defined.

(** C1 as worded fails: [/] is neither a letter, a digit, one of
    [$ - _ @ . & + ! * ( ) ,] nor part of a [%XX] pair, and it is part
    of the URL matched in ["https://a.co/x"]. *)
Lemma url_pattern_claimed_set_fails :
  ~ (forall content u,
       u ∈ findall url_pattern content -> claimed_url u = true).
Proof.
  intros H. specialize (H "https://a.co/x" "https://a.co/x").
  assert (claimed_url "https://a.co/x" = false) as E by reflexivity.
  rewrite H in E; [done|]. vm_compute. apply list_elem_of_here.
Qed.

(** ** Deduplication *)

Lemma unique_seen links :
  (fold_left unique_step links (∅, [])).1 = list_to_set (unique links).
Proof.
  unfold unique. induction links as [|x l IH] using rev_ind; [done|].
  rewrite fold_left_app. simpl. unfold unique_step at 1 3.
  destruct (decide _) as [Hin|Hin]; simpl; [done|].
  rewrite IH, list_to_set_app_L. simpl. set_solver.
Qed.

Lemma unique_snoc links x :
  unique (links ++ [x]) =
  if decide (x ∈ unique links) then unique links else unique links ++ [x].
Proof.
  unfold unique at 1. rewrite fold_left_app. simpl. unfold unique_step.
  rewrite unique_seen.
  destruct (decide (x ∈ list_to_set (unique links))) as [Hin|Hin];
    destruct (decide (x ∈ unique links)) as [Hin'|Hin']; try done;
    set_solver.
Qed.

Lemma elem_of_unique links x : x ∈ unique links <-> x ∈ links.
Proof.
  induction links as [|y l IH] using rev_ind; [done|].
  rewrite unique_snoc. destruct (decide _) as [Hin|Hin]; set_solver.
Qed.

Lemma NoDup_unique links : NoDup (unique links).
Proof.
  induction links as [|y l IH] using rev_ind; [constructor|].
  rewrite unique_snoc. destruct (decide _) as [Hin|Hin]; [done|].
  apply NoDup_app. split_and!; [done| |apply NoDup_singleton].
  intros z Hz ->%list_elem_of_singleton. done.
Qed.

(** First-seen order: an entry of the output is seen in the input
    before any occurrence of an entry that comes later in the output. *)
Lemma unique_first_seen links i j u v :
  i < j ->
  unique links !! i = Some u ->
  unique links !! j = Some v ->
  exists k, links !! k = Some u /\ forall k', k' <= k -> links !! k' <> Some v.
Proof.
  revert i j u v. induction links as [|x l IH] using rev_ind;
    intros i j u v Hij Hi Hj; [done|].
  assert (forall k w, l !! k = Some w -> (l ++ [x]) !! k = Some w) as Hext.
  { intros k w Hk. by rewrite lookup_app_l by by eapply lookup_lt_Some. }
  assert (forall k, (exists w, l !! k = Some w) ->
            forall k', k' <= k -> (l ++ [x]) !! k' = l !! k') as Hpre.
  { intros k [w Hk] k' Hk'. apply lookup_lt_Some in Hk.
    rewrite lookup_app_l; [done | lia]. }
  rewrite unique_snoc in Hi, Hj. destruct (decide _) as [Hin|Hin].
  - destruct (IH _ _ _ _ Hij Hi Hj) as (k & Hk & Hbefore).
    exists k. split; [by apply Hext|].
    intros k' Hk'. rewrite (Hpre k) by eauto. by apply Hbefore.
  - destruct (decide (j < length (unique l))) as [Hlt|Hge].
    + rewrite lookup_app_l in Hi by lia. rewrite lookup_app_l in Hj by lia.
      destruct (IH _ _ _ _ Hij Hi Hj) as (k & Hk & Hbefore).
      exists k. split; [by apply Hext|].
      intros k' Hk'. rewrite (Hpre k) by eauto. by apply Hbefore.
    + assert (j = length (unique l)) as ->.
      { apply lookup_lt_Some in Hj. rewrite length_app in Hj. simpl in Hj. lia. }
      rewrite lookup_app_l in Hi by lia.
      rewrite list_lookup_middle in Hj by done. injection Hj as <-.
      assert (u ∈ l) as [k Hk]%list_elem_of_lookup.
      { apply elem_of_unique. by eapply list_elem_of_lookup_2. }
      exists k. split; [by apply Hext|].
      intros k' Hk'. rewrite (Hpre k) by eauto.
      intros Hx%list_elem_of_lookup_2. by apply Hin, elem_of_unique.
Qed.

(** ** The order of collection *)

Lemma fold_attachment_step atts links :
  fold_left attachment_step atts links =
  links ++ flat_map
             (fun att =>
                match att_url att with
                | Some u => if truthy u then [u] else []
                | None => []
                end) atts.
Proof.
  revert links. induction atts as [|att atts IH]; intros links; simpl.
  { by rewrite app_nil_r. }
  rewrite IH. unfold attachment_step.
  destruct (att_url att) as [u|]; simpl; [|done].
  destruct (truthy u); simpl; [by rewrite <- app_assoc | done].
Qed.

Lemma media_step_links links sub :
  media_step links sub = links ++ media_links sub.
Proof.
  destruct sub as [[[u|]]|]; simpl; rewrite ?app_nil_r; done.
Qed.

Lemma embed_step_links links e :
  embed_step links e = links ++ embed_links e.
Proof.
  unfold embed_step, embed_links. rewrite !media_step_links.
  rewrite <- !app_assoc.
  destruct (embed_url e) as [u|]; [|done].
  destruct (truthy u); [by rewrite <- app_assoc | done].
Qed.

Lemma fold_embed_step es links :
  fold_left embed_step es links = links ++ flat_map embed_links es.
Proof.
  revert links. induction es as [|e es IH]; intros links; simpl.
  { by rewrite app_nil_r. }
  by rewrite IH, embed_step_links, <- app_assoc.
Qed.

Lemma message_step_links links m :
  message_step links m = links ++ message_links m.
Proof.
  unfold message_step, message_links, content_links, attachment_links.
  by rewrite fold_embed_step, fold_attachment_step, <- !app_assoc.
Qed.

Lemma fold_message_step messages links :
  fold_left message_step messages links =
  links ++ flat_map message_links messages.
Proof.
  revert links. induction messages as [|m ms IH]; intros links; simpl.
  { by rewrite app_nil_r. }
  by rewrite IH, message_step_links, <- app_assoc.
Qed.

Lemma collect_links_flat_map messages :
  collect_links messages = flat_map message_links messages.
Proof. unfold collect_links. by rewrite fold_message_step. Qed.

(** ** [extract_links] *)

(** C2: [extract_links] returns every collected URL once and no
    other, in first-seen order: an entry is seen in the batch before
    any occurrence of an entry that follows it in the output.  A batch
    of one message with the content
    ["see https://a.co/x and https://a.co/x again"] gives
    [["https://a.co/x"]]. *)
Theorem extract_links_unique messages :
  NoDup (extract_links messages)
  /\ (forall u, u ∈ extract_links messages <-> u ∈ collect_links messages)
  /\ (forall i j u v,
        i < j ->
        extract_links messages !! i = Some u ->
        extract_links messages !! j = Some v ->
        exists k,
          collect_links messages !! k = Some u
          /\ forall k', k' <= k -> collect_links messages !! k' <> Some v)
  /\ (forall id who time,
        extract_links
          [Message id who time
             (Some "see https://a.co/x and https://a.co/x again") None None]
        = ["https://a.co/x"]).
Proof.
  unfold extract_links. split_and!.
  - apply NoDup_unique.
  - intros u. apply elem_of_unique.
  - intros i j u v. apply unique_first_seen.
  - intros id who time. by vm_compute.
Qed.

(** The first-seen order of [extract_links_unique] on a batch where a
    URL of the second message repeats one of the first. *)
Lemma extract_links_unique_witness :
  exists k,
    collect_links
      [Message "2" None None (Some "http://b.io http://a.io") None None;
       Message "1" None None (Some "http://a.io") None None] !! k
    = Some "http://b.io"
    /\ forall k', k' <= k ->
         collect_links
           [Message "2" None None (Some "http://b.io http://a.io") None None;
            Message "1" None None (Some "http://a.io") None None] !! k'
         <> Some "http://a.io".
Proof.
  apply (proj1 (proj2 (proj2
           (extract_links_unique
              [Message "2" None None (Some "http://b.io http://a.io") None None;
               Message "1" None None (Some "http://a.io") None None])))
           0 1 "http://b.io" "http://a.io");
    [lia | by vm_compute | by vm_compute].
Defined.

(** C3: the messages are scanned in the order of the batch, and each
    contributes its content URLs, then its attachment URLs, then for
    each embed the direct, image, thumbnail and video URL in that
    order; the output is that sequence with repeats dropped. *)
Theorem extract_links_order messages :
  collect_links messages = flat_map message_links messages
  /\ extract_links messages = unique (flat_map message_links messages).
Proof.
  unfold extract_links. by rewrite collect_links_flat_map.
Qed.

Lemma findall_url_pattern_nonempty content :
  "" ∉ findall url_pattern content.
Proof.
  intros (pre & post & scheme & body & _ & Hu & Hs & _)%findall_from_url_pattern.
  by destruct Hs as [-> | ->].
Qed.

Lemma elem_of_flat_map {A B} (f : A -> list B) (l : list A) (y : B) :
  y ∈ flat_map f l <-> exists x, x ∈ l /\ y ∈ f x.
Proof.
  rewrite list_elem_of_In, in_flat_map.
  split; intros (x & Hx & Hy); exists x;
    by rewrite ?list_elem_of_In in *.
Qed.

Lemma empty_media_links sub : "" ∈ media_links sub <-> empty_media_url sub.
Proof.
  unfold empty_media_url. destruct sub as [[[u|]]|]; simpl.
  - rewrite list_elem_of_singleton. split; [by intros <- | by intros [= ->]].
  - split; [by intros ?%elem_of_nil | done].
  - split; [by intros ?%elem_of_nil | done].
Qed.

Lemma empty_embed_links e :
  "" ∈ embed_links e <->
  empty_media_url (embed_image e) \/ empty_media_url (embed_thumbnail e)
  \/ empty_media_url (embed_video e).
Proof.
  unfold embed_links. rewrite !elem_of_app, !empty_media_links.
  split; [|tauto]. intros [H|H]; [|tauto].
  destruct (embed_url e) as [u|]; [|by apply elem_of_nil in H].
  destruct u; simpl in H; [by apply elem_of_nil in H|].
  by apply list_elem_of_singleton in H.
Qed.

Lemma empty_attachment_links m : "" ∉ attachment_links m.
Proof.
  unfold attachment_links. rewrite elem_of_flat_map.
  intros (att & _ & H). destruct (att_url att) as [u|];
    [|by apply elem_of_nil in H].
  destruct u; simpl in H; [by apply elem_of_nil in H|].
  by apply list_elem_of_singleton in H.
Qed.

(** C10: an attachment URL and an embed's direct URL are appended
    only when non-empty, an image, thumbnail or video URL whenever its
    [url] key is there; so the output has an empty entry exactly when
    some embed of the batch has an empty image, thumbnail or video
    URL, and there is such a batch. *)
Theorem extract_links_empty_entry :
  (forall links att,
     attachment_step links att =
     match att_url att with
     | Some (String a u) => links ++ [String a u]
     | _ => links
     end)
  /\ (forall links sub u, media_url sub = Some u ->
        media_step links (Some sub) = links ++ [u])
  /\ (forall messages,
        "" ∈ extract_links messages <->
        exists m e,
          m ∈ messages /\ e ∈ default [] (msg_embeds m)
          /\ (empty_media_url (embed_image e)
              \/ empty_media_url (embed_thumbnail e)
              \/ empty_media_url (embed_video e)))
  /\ "" ∈ extract_links
            [Message "1" None None None None
               (Some [Embed None (Some (Media (Some ""))) None None])].
Proof.
  split_and!.
  - intros links att. unfold attachment_step.
    by destruct (att_url att) as [[|a u]|].
  - intros links sub u H. simpl. by rewrite H.
  - intros messages. unfold extract_links.
    rewrite elem_of_unique, collect_links_flat_map, elem_of_flat_map.
    split.
    + intros (m & Hm & H). exists m. unfold message_links in H.
      rewrite !elem_of_app, elem_of_flat_map in H.
      destruct H as [H | [H | (e & He & H)]].
      * by apply findall_url_pattern_nonempty in H.
      * by apply empty_attachment_links in H.
      * exists e. by rewrite <- empty_embed_links.
    + intros (m & e & Hm & He & H). exists m. split; [done|].
      unfold message_links. rewrite !elem_of_app, elem_of_flat_map.
      right. right. exists e. by rewrite empty_embed_links.
  - vm_compute. apply list_elem_of_here.
Qed.

(** [extract_links_empty_entry] on an embed whose thumbnail has an
    empty URL. *)
Lemma extract_links_empty_entry_witness :
  "" ∈ extract_links
         [Message "1" None None (Some "no link") None
            (Some [Embed (Some "") None (Some (Media (Some ""))) None])].
Proof.
  apply (proj1 (proj2 (proj2 extract_links_empty_entry))).
  eexists _, _. split_and!;
    [apply list_elem_of_here | apply list_elem_of_here |].
  right; left. reflexivity.
Defined.

(** ** The paginator *)

Section Paginator.

Variable server : list request -> request -> response.
Variables url token : string.

Lemma list_last_cons {A} (x y : A) (l : list A) :
  List.last (y :: l) x = List.last l y.
Proof.
  revert x y. induction l as [|z l IH]; intros x y; [done|].
  change (List.last (y :: z :: l) x) with (List.last (z :: l) x).
  by rewrite (IH x z), (IH y z).
Qed.

Lemma last_cons_default {A} (x : A) (l : list A) :
  last (x :: l) = Some (List.last l x).
Proof.
  revert x. induction l as [|y l IH]; intros x; [done|].
  by rewrite last_cons_cons, IH, list_last_cons.
Qed.

Lemma log_lines_app l1 l2 w :
  log_lines l2 (log_lines l1 w) = log_lines (l1 ++ l2) w.
Proof. unfold log_lines. simpl. by rewrite app_assoc. Qed.

Ltac run_round :=
  cbn [fetch_loop];
  unfold mbind, M_bind, requests_get, print, sys_exit, out_of_fuel, mret, M_ret.

(** One round of the loop, by the response it gets. *)
Lemma fetch_loop_round fuel st w :
  limit_pos (remaining st) = true ->
  fetch_loop server (S fuel) url token st w =
  let req := make_request url token st in
  let resp := server (sent w) req in
  let w1 := log_request req w in
  match error_of resp with
  | Some e => (SysExit 1, log_lines (error_report e) w1)
  | None =>
      match page_of resp with
      | Some (m :: ms) =>
          let st' := next_state st (m :: ms) in
          let w2 := log_lines [progress_line (length (all_messages st'))] w1 in
          if (Z.of_nat (length (m :: ms)) <? limit_min (remaining st) 100)%Z
          then (Return (all_messages st'), w2)
          else fetch_loop server fuel url token st' w2
      | _ => (Return (all_messages st),
              log_lines ["No more messages to fetch"] w1)
      end
  end.
Proof.
  intros Hpos. run_round. rewrite Hpos. cbn zeta.
  destruct (server (sent w) (make_request url token st))
    as [status_code messages text|e]; simpl; [|done].
  destruct (status_code =? 200)%Z eqn:E200.
  { destruct messages as [|m ms]; [done|].
    unfold next_state. rewrite last_cons_default. simpl.
    by destruct (_ <? _)%Z. }
  destruct (status_code =? 401)%Z; [by rewrite log_lines_app|].
  destruct (status_code =? 403)%Z; [done|].
  destruct (status_code =? 404)%Z; [done|].
  by rewrite log_lines_app.
Qed.

Lemma fetch_loop_done fuel st w :
  limit_pos (remaining st) = false ->
  fetch_loop server fuel url token st w = (Return (all_messages st), w).
Proof. intros Hpos. destruct fuel; run_round; by rewrite Hpos. Qed.

Lemma fetch_loop_out_of_fuel st w :
  limit_pos (remaining st) = true ->
  fetch_loop server 0 url token st w = (OutOfFuel, w).
Proof. intros Hpos. run_round. by rewrite Hpos. Qed.

Lemma page_of_error resp :
  match page_of resp with
  | Some _ => error_of resp = None
  | None => exists e, error_of resp = Some e
  end.
Proof.
  destruct resp as [status_code messages text|e]; simpl; [|by eauto].
  destruct (status_code =? 200)%Z; [done|].
  repeat (destruct (_ =? _)%Z; [by eauto|]). by eauto.
Qed.

(** Induction along the rounds of the loop: a property of the loop's
    outcome holds if it holds where the loop ends and is carried back
    over a round that continues. *)
Lemma fetch_loop_rounds
  (P : nat -> loop_state -> world -> result (list message) * world -> Prop) :
  (forall fuel st w,
     limit_pos (remaining st) = false ->
     P fuel st w (Return (all_messages st), w)) ->
  (forall st w,
     limit_pos (remaining st) = true -> P 0 st w (OutOfFuel, w)) ->
  (forall fuel st w e,
     limit_pos (remaining st) = true ->
     error_of (server (sent w) (make_request url token st)) = Some e ->
     P (S fuel) st w
       (SysExit 1,
        log_lines (error_report e)
          (log_request (make_request url token st) w))) ->
  (forall fuel st w,
     limit_pos (remaining st) = true ->
     page_of (server (sent w) (make_request url token st)) = Some [] ->
     P (S fuel) st w
       (Return (all_messages st),
        log_lines ["No more messages to fetch"]
          (log_request (make_request url token st) w))) ->
  (forall fuel st w page,
     limit_pos (remaining st) = true ->
     page_of (server (sent w) (make_request url token st)) = Some page ->
     page <> [] ->
     (Z.of_nat (length page) < limit_min (remaining st) 100)%Z ->
     P (S fuel) st w
       (Return (all_messages (next_state st page)),
        log_lines [progress_line (length (all_messages (next_state st page)))]
          (log_request (make_request url token st) w))) ->
  (forall fuel st w page out,
     limit_pos (remaining st) = true ->
     page_of (server (sent w) (make_request url token st)) = Some page ->
     page <> [] ->
     (limit_min (remaining st) 100 <= Z.of_nat (length page))%Z ->
     P fuel (next_state st page)
       (log_lines [progress_line (length (all_messages (next_state st page)))]
          (log_request (make_request url token st) w)) out ->
     P (S fuel) st w out) ->
  forall fuel st w, P fuel st w (fetch_loop server fuel url token st w).
Proof.
  intros Hdone Hfuel Herr Hempty Hshort Hnext.
  induction fuel as [|fuel IH]; intros st w;
    destruct (limit_pos (remaining st)) eqn:Hpos;
    rewrite ?fetch_loop_done by done; auto.
  { rewrite fetch_loop_out_of_fuel by done. auto. }
  rewrite fetch_loop_round by done. cbn zeta.
  pose proof (page_of_error (server (sent w) (make_request url token st))) as Hp.
  destruct (page_of _) as [page|] eqn:Hpage.
  - rewrite Hp. destruct page as [|m ms]; [by apply Hempty|].
    destruct (_ <? _)%Z eqn:Hlt.
    + apply Hshort; [done..|]. by apply Z.ltb_lt.
    + eapply Hnext; [done..| |apply IH]. by apply Z.ltb_ge.
  - destruct Hp as [e He]. rewrite He. by apply Herr.
Qed.

(** The loop touches neither the files nor the clock. *)
Lemma fetch_loop_files fuel st w :
  files (fetch_loop server fuel url token st w).2 = files w.
Proof.
  revert fuel st w.
  apply (fetch_loop_rounds (fun _ _ w out => files out.2 = files w)); auto.
Qed.

(** The requests of a run extend those sent before it. *)
Lemma fetch_loop_sent fuel st w :
  exists reqs, sent (fetch_loop server fuel url token st w).2 = sent w ++ reqs.
Proof.
  revert fuel st w.
  apply (fetch_loop_rounds
           (fun _ _ w out => exists reqs, sent out.2 = sent w ++ reqs)); simpl.
  - intros _ _ w _. exists []. by rewrite app_nil_r.
  - intros _ w _. exists []. by rewrite app_nil_r.
  - intros _ st w e _ _. by eexists [_].
  - intros _ st w _ _. by eexists [_].
  - intros _ st w page _ _ _ _. by eexists [_].
  - intros _ st w page out _ _ _ _ [reqs ->].
    eexists (_ :: reqs). by rewrite <- app_assoc.
Qed.

(** With a finite limit the loop ends within [limit] rounds. *)
Lemma fetch_loop_terminates fuel st w n :
  remaining st = Finite n -> Z.to_nat n <= fuel ->
  (fetch_loop server fuel url token st w).1 <> OutOfFuel.
Proof.
  revert n. revert fuel st w.
  apply (fetch_loop_rounds
           (fun fuel st _ out =>
              forall n, remaining st = Finite n -> Z.to_nat n <= fuel ->
                        out.1 <> OutOfFuel)); simpl; try done.
  - intros st w Hpos n Hn Hfuel. rewrite Hn in Hpos. simpl in Hpos.
    apply Z.ltb_lt in Hpos. lia.
  - intros fuel st w page out Hpos Hpage Hne Hfull IH n Hn Hfuel.
    apply (IH (n - Z.of_nat (length page))%Z).
    + unfold next_state. simpl. by rewrite Hn.
    + destruct page; [done|]. simpl length. lia.
Qed.

Lemma remaining_next st page :
  remaining (next_state st page) =
  limit_sub (remaining st) (Z.of_nat (length page)).
Proof. reflexivity. Qed.

Lemma last_id_next st page :
  last_message_id (next_state st page) = msg_id <$> last page.
Proof. reflexivity. Qed.

Lemma all_messages_next st page :
  all_messages (next_state st page) = all_messages st ++ page.
Proof. reflexivity. Qed.

Lemma make_request_cursor st :
  last_message_id st <> Some "" ->
  make_request url token st =
  Request url token (limit_min (remaining st) 100) (last_message_id st).
Proof.
  intros Hid. unfold make_request. f_equal.
  destruct (last_message_id st) as [[|a i]|]; done.
Qed.

Lemma fetch_loop_chained fuel st w :
  nonempty_ids server ->
  last_message_id st <> Some "" ->
  exists reqs,
    sent (fetch_loop server fuel url token st w).2 = sent w ++ reqs
    /\ chained url token (remaining st) (last_message_id st)
         (zip reqs (answers server (sent w) reqs)).
Proof.
  intros Hids. revert fuel st w.
  apply (fetch_loop_rounds
           (fun _ st w out =>
              last_message_id st <> Some "" ->
              exists reqs,
                sent out.2 = sent w ++ reqs
                /\ chained url token (remaining st) (last_message_id st)
                     (zip reqs (answers server (sent w) reqs)))); simpl.
  - intros _ st w _ _. exists []. by rewrite app_nil_r.
  - intros st w _ _. exists []. by rewrite app_nil_r.
  - intros _ st w e _ _ Hid. eexists [_]. split; [done|]. simpl.
    by rewrite make_request_cursor.
  - intros _ st w _ _ Hid. eexists [_]. split; [done|]. simpl.
    by rewrite make_request_cursor.
  - intros _ st w page _ _ _ _ Hid. eexists [_]. split; [done|]. simpl.
    by rewrite make_request_cursor.
  - intros _ st w page out _ Hpage Hne _ IH Hid.
    destruct IH as (reqs & -> & Hchain).
    { destruct (last page) as [m|] eqn:Hlast; [simpl|done].
      intros [= Hm]. destruct (server (sent w) (make_request url token st))
        as [status_code messages text|] eqn:Hresp; [|done].
      simpl in Hpage. destruct (status_code =? 200)%Z; [|done].
      injection Hpage as ->.
      eapply Hids; [done| |done]. by eapply last_Some_elem_of. }
    exists (make_request url token st :: reqs).
    split; [by rewrite <- app_assoc|]. simpl.
    split; [by rewrite make_request_cursor|].
    destruct reqs as [|req' reqs]; [done|]. simpl. by exists page.
Qed.

(** A round that receives the page [page]. *)
Lemma fetch_loop_round_page fuel st w page text :
  limit_pos (remaining st) = true ->
  server (sent w) (make_request url token st) = HttpResponse 200 page text ->
  fetch_loop server (S fuel) url token st w =
  let w1 := log_request (make_request url token st) w in
  match page with
  | [] => (Return (all_messages st), log_lines ["No more messages to fetch"] w1)
  | _ :: _ =>
      let st' := next_state st page in
      let w2 := log_lines [progress_line (length (all_messages st'))] w1 in
      if (Z.of_nat (length page) <? limit_min (remaining st) 100)%Z
      then (Return (all_messages st'), w2)
      else fetch_loop server fuel url token st' w2
  end.
Proof.
  intros Hpos Hresp. rewrite fetch_loop_round by done. cbn zeta.
  rewrite Hresp. simpl error_of. simpl page_of. by destruct page.
Qed.

End Paginator.

(** C4: the first request of a run asks for [min(limit, 100)]
    messages without a cursor, and every later request asks for
    [min(remaining, 100)] with [before] set to the identifier of the
    last message of the page before it, [remaining] being the limit
    less the messages received.  The loop tests the cursor with
    [if last_message_id:], so the identifiers the server returns are
    taken to be non-empty, as the API's are.  With a limit of 250 and
    two full pages of 100, the run issues exactly three requests, of
    sizes 100, 100 and 50, the second and third with the last
    identifier of the page before. *)
Theorem fetch_messages_requests :
  (forall server fuel channel_id token lim w,
     nonempty_ids server ->
     exists reqs,
       sent (fetch_messages server fuel channel_id token lim w).2
       = sent w ++ reqs
       /\ chained
            ("https://discord.com/api/v10/channels/" +:+ channel_id
             +:+ "/messages")
            token lim None (zip reqs (answers server (sent w) reqs)))
  /\ (forall server fuel channel_id token w p1 p2 p3 t1 t2 t3 c1 c2,
        let url := "https://discord.com/api/v10/channels/" +:+ channel_id
                   +:+ "/messages" in
        let r1 := Request url token 100 None in
        let r2 := Request url token 100 (Some c1) in
        let r3 := Request url token 50 (Some c2) in
        3 <= fuel ->
        server (sent w) r1 = HttpResponse 200 p1 t1 ->
        length p1 = 100 -> msg_id <$> last p1 = Some c1 -> c1 <> "" ->
        server (sent w ++ [r1]) r2 = HttpResponse 200 p2 t2 ->
        length p2 = 100 -> msg_id <$> last p2 = Some c2 -> c2 <> "" ->
        server (sent w ++ [r1; r2]) r3 = HttpResponse 200 p3 t3 ->
        (fetch_messages server fuel channel_id token (Finite 250) w).1
        = Return (p1 ++ p2 ++ p3)
        /\ sent (fetch_messages server fuel channel_id token (Finite 250) w).2
           = sent w ++ [r1; r2; r3]).
Proof.
  split.
  - intros server fuel channel_id token lim w Hids.
    unfold fetch_messages, mbind, M_bind, print.
    by apply (fetch_loop_chained server _ token fuel (LoopState [] lim None)
                (log_lines _ w)).
  - intros server fuel channel_id token w p1 p2 p3 t1 t2 t3 c1 c2 url r1 r2 r3
      Hfuel H1 Hl1 Hc1 Hn1 H2 Hl2 Hc2 Hn2 H3.
    destruct fuel as [|[|[|fuel]]]; [lia..|].
    unfold fetch_messages, mbind, M_bind, print. fold url.
    set (w0 := log_lines _ w). set (st0 := LoopState [] (Finite 250) None).
    (* first page *)
    rewrite (fetch_loop_round_page server url token _ st0 w0 p1 t1) by done.
    cbn zeta. destruct p1 as [|m1 p1']; [done|]. rewrite Hl1.
    change (Z.of_nat 100 <? limit_min (remaining st0) 100)%Z with false. cbn iota.
    set (st1 := next_state st0 (m1 :: p1')).
    assert (remaining st1 = Finite 150) as Hrem1.
    { subst st1. by rewrite remaining_next, Hl1. }
    assert (make_request url token st1 = r2) as Hr2.
    { unfold make_request. rewrite Hrem1. subst st1.
      rewrite last_id_next, Hc1. by destruct c1. }
    set (w1 := log_lines _ (log_request _ w0)).
    (* second page *)
    rewrite (fetch_loop_round_page server url token _ st1 w1 p2 t2);
      [|by rewrite Hrem1|by rewrite Hr2].
    cbn zeta. destruct p2 as [|m2 p2']; [done|]. rewrite Hl2, Hrem1.
    change (Z.of_nat 100 <? limit_min (Finite 150) 100)%Z with false. cbn iota.
    set (st2 := next_state st1 (m2 :: p2')).
    assert (remaining st2 = Finite 50) as Hrem2.
    { subst st2. by rewrite remaining_next, Hrem1, Hl2. }
    assert (make_request url token st2 = r3) as Hr3.
    { unfold make_request. rewrite Hrem2. subst st2.
      rewrite last_id_next, Hc2. by destruct c2. }
    set (w2 := log_lines _ (log_request _ w1)).
    assert (sent w2 = sent w ++ [r1; r2]) as Hsent2.
    { subst w2 w1 w0. simpl. by rewrite Hr2, <- app_assoc. }
    (* third page *)
    rewrite (fetch_loop_round_page server url token _ st2 w2 p3 t3);
      [|by rewrite Hrem2|by rewrite Hr3, Hsent2].
    cbn zeta. rewrite Hr3.
    assert (all_messages st2 = (m1 :: p1') ++ m2 :: p2') as Hall by done.
    assert (sent (log_request r3 w2) = sent w ++ [r1; r2; r3]) as Hsent3.
    { change (sent w2 ++ [r3] = sent w ++ [r1; r2; r3]).
      by rewrite Hsent2, <- app_assoc. }
    destruct p3 as [|m3 p3'].
    { split; [cbn [fst]; by rewrite Hall, app_nil_r | exact Hsent3]. }
    destruct (_ <? _)%Z eqn:Hlt.
    + split; [cbn [fst] | exact Hsent3].
      by rewrite all_messages_next, Hall, <- app_assoc.
    + rewrite fetch_loop_done.
      2:{ rewrite remaining_next, Hrem2. rewrite Hrem2 in Hlt.
          cbn [limit_pos limit_sub]. cbn [limit_min] in Hlt.
          apply Z.ltb_ge. apply Z.ltb_ge in Hlt. lia. }
      split; [cbn [fst] | exact Hsent3].
      by rewrite all_messages_next, Hall, <- app_assoc.
Qed.

(** [fetch_messages_requests] on a server whose page has one message
    with the identifier 7, and on a channel of 300 messages: three
    requests, of 100, 100 and 50 messages, chained by the identifiers
    201 and 101. *)
Lemma fetch_messages_requests_witness :
  (exists reqs,
     sent (fetch_messages
             (constant_server
                (HttpResponse 200 [Message "7" None None None None None] ""))
             3 "42" "token" (Finite 2) empty_world).2
     = sent empty_world ++ reqs
     /\ chained "https://discord.com/api/v10/channels/42/messages" "token"
          (Finite 2) None
          (zip reqs
             (answers
                (constant_server
                   (HttpResponse 200 [Message "7" None None None None None] ""))
                (sent empty_world) reqs)))
  /\ sent (fetch_messages (channel_server (sample_channel 300)) 3 "42" "token"
             (Finite 250) empty_world).2
     = [Request "https://discord.com/api/v10/channels/42/messages" "token" 100
          None;
        Request "https://discord.com/api/v10/channels/42/messages" "token" 100
          (Some "201");
        Request "https://discord.com/api/v10/channels/42/messages" "token" 50
          (Some "101")].
Proof.
  split.
  - apply (proj1 fetch_messages_requests).
    intros hist req status_code messages text m [= _ <- _].
    by intros ->%list_elem_of_singleton.
  - apply (proj2 fetch_messages_requests
             (channel_server (sample_channel 300)) 3 "42" "token" empty_world
             (take 100 (sample_channel 300))
             (take 100 (drop 100 (sample_channel 300)))
             (take 50 (drop 200 (sample_channel 300)))
             "" "" "" "201" "101");
      first [lia | by vm_compute].
Defined.

Section Stopping.

Variable server : list request -> request -> response.
Variables url token : string.

(** A round that starts with a positive [remaining] sends its
    request. *)
Lemma fetch_loop_sent_first fuel st w :
  limit_pos (remaining st) = true ->
  exists reqs,
    sent (fetch_loop server (S fuel) url token st w).2
    = sent w ++ make_request url token st :: reqs.
Proof.
  intros Hpos. rewrite fetch_loop_round by done. cbn zeta.
  destruct (error_of _); [by exists []|].
  destruct (page_of _) as [[|m ms]|]; [by exists [] | | by exists []].
  destruct (_ <? _)%Z; [by exists []|].
  match goal with
  | |- context [fetch_loop server fuel url token ?st' ?w'] =>
      destruct (fetch_loop_sent server url token fuel st' w') as [reqs ->]
  end.
  exists reqs. simpl. by rewrite <- app_assoc.
Qed.

Lemma limit_invariant_next lim st page :
  remaining st = limit_sub lim (Z.of_nat (length (all_messages st))) ->
  remaining (next_state st page)
  = limit_sub lim (Z.of_nat (length (all_messages (next_state st page)))).
Proof.
  intros Hinv. rewrite remaining_next, all_messages_next, Hinv, length_app.
  destruct lim as [n|]; [simpl; f_equal; lia | done].
Qed.

Lemma limit_pos_reached lim count :
  limit_pos (limit_sub lim (Z.of_nat count)) = false <-> limit_reached lim count.
Proof.
  destruct lim as [n|]; simpl; [|done].
  rewrite Z.ltb_ge. lia.
Qed.

Lemma fetch_loop_stops fuel lim st w page text :
  remaining st = limit_sub lim (Z.of_nat (length (all_messages st))) ->
  limit_pos (remaining st) = true ->
  server (sent w) (make_request url token st) = HttpResponse 200 page text ->
  sent (fetch_loop server (S (S fuel)) url token st w).2
  = sent w ++ [make_request url token st]
  <-> page = []
      \/ (Z.of_nat (length page) < req_limit (make_request url token st))%Z
      \/ limit_reached lim (length (all_messages st ++ page)).
Proof.
  intros Hinv Hpos Hresp.
  rewrite (fetch_loop_round_page server url token _ st w page text) by done.
  cbn zeta. destruct page as [|m ms]; [by split; [left|]|].
  change (req_limit (make_request url token st))
    with (limit_min (remaining st) 100).
  destruct (_ <? _)%Z eqn:Hlt.
  { apply Z.ltb_lt in Hlt. split; [by right; left | done]. }
  apply Z.ltb_ge in Hlt.
  pose proof (limit_invariant_next lim st (m :: ms) Hinv) as Hinv'.
  rewrite all_messages_next in Hinv'.
  destruct (limit_pos (remaining (next_state st (m :: ms)))) eqn:Hpos'.
  - match goal with
    | |- context [fetch_loop server (S fuel) url token ?st' ?w'] =>
        destruct (fetch_loop_sent_first fuel st' w' Hpos') as [reqs ->]
    end.
    split.
    + simpl. rewrite <- app_assoc. intros Heq%app_inv_head. done.
    + intros [?|[?|Hreached]]; [done | lia |].
      apply limit_pos_reached in Hreached. congruence.
  - rewrite fetch_loop_done by done. split; [|done]. intros _.
    right; right. apply limit_pos_reached. congruence.
Qed.

End Stopping.

(** C5: after a page the loop issues no further request exactly when
    the page is empty, or shorter than what was requested, or brings
    the count of messages up to the limit; [remaining] is the limit
    less that count all along.  With a limit [N] from 1 to 100 the
    run issues one request, for [N] messages and without a cursor, it
    ends, and what it returns has at most [N] messages when the
    server answers with no more than was requested. *)
Theorem paginator_stops :
  (forall lim,
     remaining (LoopState [] lim None)
     = limit_sub lim (Z.of_nat (length (all_messages (LoopState [] lim None)))))
  /\ (forall lim st page,
        remaining st = limit_sub lim (Z.of_nat (length (all_messages st))) ->
        remaining (next_state st page)
        = limit_sub lim
            (Z.of_nat (length (all_messages (next_state st page)))))
  /\ (forall server url token fuel lim st w page text,
        remaining st = limit_sub lim (Z.of_nat (length (all_messages st))) ->
        limit_pos (remaining st) = true ->
        server (sent w) (make_request url token st)
        = HttpResponse 200 page text ->
        sent (fetch_loop server (S (S fuel)) url token st w).2
        = sent w ++ [make_request url token st]
        <-> page = []
            \/ (Z.of_nat (length page)
                < req_limit (make_request url token st))%Z
            \/ limit_reached lim (length (all_messages st ++ page)))
  /\ (forall server fuel channel_id token N w,
        let req :=
          Request ("https://discord.com/api/v10/channels/" +:+ channel_id
                   +:+ "/messages") token N None in
        let out := fetch_messages server (S fuel) channel_id token (Finite N) w in
        (1 <= N <= 100)%Z ->
        sent out.2 = sent w ++ [req]
        /\ out.1 <> OutOfFuel
        /\ ((forall status_code page text,
               server (sent w) req = HttpResponse status_code page text ->
               (Z.of_nat (length page) <= req_limit req)%Z) ->
            forall messages,
              out.1 = Return messages -> (Z.of_nat (length messages) <= N)%Z)).
Proof.
  split_and!.
  - intros [n|]; simpl; [f_equal; lia | done].
  - apply limit_invariant_next.
  - apply fetch_loop_stops.
  - intros server fuel channel_id token N w req out HN. subst out.
    unfold fetch_messages, mbind, M_bind, print.
    set (url := "https://discord.com/api/v10/channels/" +:+ channel_id
                +:+ "/messages") in *.
    set (w0 := log_lines _ w). set (st0 := LoopState [] (Finite N) None).
    assert (limit_pos (remaining st0) = true) as Hpos
      by (apply Z.ltb_lt; lia).
    assert (make_request url token st0 = req) as Hreq.
    { unfold make_request, req. simpl. f_equal. lia. }
    rewrite fetch_loop_round by done. cbn zeta. rewrite Hreq.
    change (sent w0) with (sent w).
    destruct (server (sent w) req) as [status_code page text|e] eqn:Hresp;
      [|by split_and!].
    simpl error_of. simpl page_of.
    destruct (status_code =? 200)%Z.
    2:{ by repeat (destruct (_ =? _)%Z; [by split_and!|]). }
    destruct page as [|m ms].
    { split_and!; [done..|]. intros _ messages [= <-]. simpl. lia. }
    assert (limit_min (remaining st0) 100 = N) as -> by (simpl; lia).
    destruct (_ <? _)%Z eqn:Hlt.
    + apply Z.ltb_lt in Hlt. split_and!; [done..|].
      intros _ messages [= <-].
      change (Z.of_nat (length (m :: ms)) <= N)%Z. lia.
    + apply Z.ltb_ge in Hlt. rewrite fetch_loop_done.
      2:{ rewrite remaining_next. subst st0.
          cbn [remaining limit_sub limit_pos]. apply Z.ltb_ge. lia. }
      split_and!; [done..|].
      intros Hserver messages [= <-].
      change (Z.of_nat (length (m :: ms)) <= N)%Z.
      by apply (Hserver _ _ _ eq_refl).
Qed.

(** [paginator_stops] with a limit of 7 on a channel of 300
    messages. *)
Lemma paginator_stops_witness :
  sent (fetch_messages (channel_server (sample_channel 300)) 1 "42" "token"
          (Finite 7) empty_world).2
  = [Request "https://discord.com/api/v10/channels/42/messages" "token" 7 None]
  /\ forall messages,
       (fetch_messages (channel_server (sample_channel 300)) 1 "42" "token"
          (Finite 7) empty_world).1 = Return messages ->
       (Z.of_nat (length messages) <= 7)%Z.
Proof.
  destruct (proj2 (proj2 (proj2 paginator_stops))
              (channel_server (sample_channel 300)) 0 "42" "token" 7%Z
              empty_world ltac:(lia)) as (Hsent & _ & Hlen).
  split; [exact Hsent|]. apply Hlen.
  intros status_code page text [= _ <- _]. vm_compute. discriminate.
Defined.

(** ** Failures *)

Lemma string_app_inj_l (p s1 s2 : string) : p +:+ s1 = p +:+ s2 -> s1 = s2.
Proof.
  induction p as [|a p IH]; [done|].
  rewrite !string_app_cons. intros [= H]. by apply IH.
Qed.

(** The console report tells the failure. *)
Lemma error_report_inj e1 e2 : error_report e1 = error_report e2 -> e1 = e2.
Proof.
  destruct e1, e2; simpl; try done.
  - intros [= H%string_app_inj_l ->]. by apply (inj pretty) in H as ->.
  - intros [= H%string_app_inj_l]. by subst.
Qed.

Section Failures.

Variable server : list request -> request -> response.
Variables url token : string.

(** A request that fails is the last of the run; the run exits with
    status 1 after printing the report of the failure. *)
Lemma fetch_loop_errors fuel st w :
  exists reqs,
    sent (fetch_loop server fuel url token st w).2 = sent w ++ reqs
    /\ forall i req e,
         reqs !! i = Some req ->
         error_of (server (sent w ++ take i reqs) req) = Some e ->
         (fetch_loop server fuel url token st w).1 = SysExit 1
         /\ S i = length reqs
         /\ exists pre,
              console (fetch_loop server fuel url token st w).2
              = pre ++ error_report e.
Proof.
  revert fuel st w.
  apply (fetch_loop_rounds server url token
           (fun _ _ w out =>
              exists reqs,
                sent out.2 = sent w ++ reqs
                /\ forall i req e,
                     reqs !! i = Some req ->
                     error_of (server (sent w ++ take i reqs) req) = Some e ->
                     out.1 = SysExit 1 /\ S i = length reqs
                     /\ exists pre, console out.2 = pre ++ error_report e));
    cbn [fst snd].
  - intros _ st w _. exists []. by rewrite app_nil_r.
  - intros st w _. exists []. by rewrite app_nil_r.
  - intros _ st w e _ He. eexists [_]. split; [done|].
    intros i req e' Hreq He'. destruct i as [|i]; [|by destruct i].
    injection Hreq as <-. simpl in He'. rewrite app_nil_r in He'. rewrite He in He'. injection He' as <-.
    split_and!; [done..|]. by eexists.
  - intros _ st w _ Hpage. eexists [_]. split; [done|].
    intros i req e' Hreq He'. destruct i as [|i]; [|by destruct i].
    injection Hreq as <-. simpl in He'. rewrite app_nil_r in He'.
    pose proof (page_of_error (server (sent w) (make_request url token st))) as H.
    rewrite Hpage in H. congruence.
  - intros _ st w page _ Hpage _ _. eexists [_]. split; [done|].
    intros i req e' Hreq He'. destruct i as [|i]; [|by destruct i].
    injection Hreq as <-. simpl in He'. rewrite app_nil_r in He'.
    pose proof (page_of_error (server (sent w) (make_request url token st))) as H.
    rewrite Hpage in H. congruence.
  - intros _ st w page out _ Hpage _ _ (reqs & Hsent & Herr).
    exists (make_request url token st :: reqs).
    split; [rewrite Hsent; simpl; by rewrite <- app_assoc|].
    intros [|i] req e' Hreq He'.
    + injection Hreq as <-. simpl in He'. rewrite app_nil_r in He'.
      pose proof (page_of_error (server (sent w) (make_request url token st)))
        as H.
      rewrite Hpage in H. congruence.
    + simpl in Hreq, He'.
      destruct (Herr i req e' Hreq) as (Hexit & Hlast & Hconsole).
      { simpl. by rewrite <- app_assoc. }
      split_and!; [done | simpl; lia | done].
Qed.

End Failures.

Section Main.

Variable fromisoformat : string -> option datetime.
Variable server : list request -> request -> response.
Variable now : nat -> datetime.
Variable open_error : string -> option string.

Lemma fetch_messages_loop fuel channel_id token lim w :
  fetch_messages server fuel channel_id token lim w =
  fetch_loop server fuel
    ("https://discord.com/api/v10/channels/" +:+ channel_id +:+ "/messages")
    token (LoopState [] lim None)
    (log_lines ["Fetching messages from channel " +:+ channel_id +:+ "..."] w).
Proof. reflexivity. Qed.

Lemma fetch_messages_files fuel channel_id token lim w :
  files (fetch_messages server fuel channel_id token lim w).2 = files w.
Proof.
  rewrite fetch_messages_loop.
  exact (fetch_loop_files server _ token fuel _ (log_lines _ w)).
Qed.

Lemma fetch_messages_errors fuel channel_id token lim w :
  exists reqs,
    sent (fetch_messages server fuel channel_id token lim w).2 = sent w ++ reqs
    /\ forall i req e,
         reqs !! i = Some req ->
         error_of (server (sent w ++ take i reqs) req) = Some e ->
         (fetch_messages server fuel channel_id token lim w).1 = SysExit 1
         /\ S i = length reqs
         /\ exists pre,
              console (fetch_messages server fuel channel_id token lim w).2
              = pre ++ error_report e.
Proof.
  rewrite fetch_messages_loop.
  exact (fetch_loop_errors server _ token fuel _ (log_lines _ w)).
Qed.

Lemma save_messages_sent messages output_file w :
  sent (save_messages fromisoformat now open_error messages output_file w).2
  = sent w.
Proof. unfold save_messages. by destruct (open_error output_file). Qed.

Lemma save_links_sent links output_file w :
  sent (save_links now open_error links output_file w).2 = sent w.
Proof. unfold save_links. by destruct (open_error output_file). Qed.

Lemma after_fetch_sent output_file extract messages w :
  sent (after_fetch fromisoformat now open_error output_file extract messages w).2 = sent w.
Proof.
  unfold after_fetch, mbind, M_bind, print, mret, M_ret.
  destruct messages as [|m ms]; [done|].
  pose proof (save_messages_sent (m :: ms) output_file w) as Hsave.
  destruct (save_messages _ _ _ _ _ w) as [[[]| |] w1]; simpl in *; [|done..].
  destruct extract; [|done]. simpl.
  destruct (extract_links (m :: ms)) as [|l ls]; [done|].
  pose proof (save_links_sent (l :: ls) "links.txt"
                (log_lines [newline +:+ "Extracting links..."] w1)) as Hlinks.
  destruct (save_links _ _ _ _ _) as [[[]| |] w2]; simpl in *; congruence.
Qed.

(** [main] is the summary, the fetch, then [after_fetch] on what the
    fetch returns; an exit of the fetch is the exit of the run. *)
Lemma main_body_fetch fuel token channel_id lim output extract w :
  exists output_file summary,
    main_body fromisoformat server now open_error fuel token channel_id lim
      output extract w
    = match fetch_messages server fuel channel_id token lim
              (log_lines summary w) with
      | (Return messages, w1) => after_fetch fromisoformat now open_error output_file extract messages w1
      | (SysExit code, w1) => (SysExit code, w1)
      | (OutOfFuel, w1) => (OutOfFuel, w1)
      end.
Proof.
  eexists _, [_; _; _]. unfold main_body, after_fetch.
  unfold mbind at 1 2 3 4. unfold M_bind at 1 2 3 4. unfold print at 1 2 3.
  cbn iota. rewrite !log_lines_app. cbn [app]. reflexivity.
Qed.

End Main.

(** C7: a page request that receives a 401 ends the run at once: no
    further request is issued, the run exits with status 1 (so
    [fetch_messages] returns no messages, and nothing is saved: the
    files are as before the run), and the console ends with the report
    of an authentication failure.  The same holds for 403, 404, any
    other status but 200 and a network failure, each with its own
    report; reports of different failures differ. *)
Theorem fetch_failure_aborts :
  (forall fromisoformat server now open_error fuel token channel_id lim
          output extract w,
     let out :=
       main_body fromisoformat server now open_error fuel token channel_id
         lim output extract w in
     exists reqs,
       sent out.2 = sent w ++ reqs
       /\ forall i req e,
            reqs !! i = Some req ->
            error_of (server (sent w ++ take i reqs) req) = Some e ->
            out.1 = SysExit 1 /\ S i = length reqs /\ files out.2 = files w
            /\ exists pre, console out.2 = pre ++ error_report e)
  /\ (forall server fuel channel_id token lim w,
        let out := fetch_messages server fuel channel_id token lim w in
        exists reqs,
          sent out.2 = sent w ++ reqs
          /\ forall i req e,
               reqs !! i = Some req ->
               error_of (server (sent w ++ take i reqs) req) = Some e ->
               out.1 = SysExit 1 /\ S i = length reqs)
  /\ (forall messages text,
        error_of (HttpResponse 401 messages text) = Some AuthenticationError
        /\ error_of (HttpResponse 403 messages text) = Some AuthorizationError
        /\ error_of (HttpResponse 404 messages text) = Some NotFoundError)
  /\ (forall status_code messages text,
        status_code <> 200%Z -> status_code <> 401%Z ->
        status_code <> 403%Z -> status_code <> 404%Z ->
        error_of (HttpResponse status_code messages text)
        = Some (HttpError status_code text))
  /\ (forall cause, error_of (RequestException cause) = Some (NetworkError cause))
  /\ (forall e1 e2, error_report e1 = error_report e2 -> e1 = e2).
Proof.
  split_and!.
  - intros fromisoformat server now open_error fuel token channel_id lim
      output extract w out. subst out.
    destruct (main_body_fetch fromisoformat server now open_error fuel token
                channel_id lim output extract w)
      as (output_file & summary & ->).
    destruct (fetch_messages_errors server fuel channel_id token lim
                (log_lines summary w)) as (reqs & Hsent & Herr).
    pose proof (fetch_messages_files server fuel channel_id token lim
                  (log_lines summary w)) as Hfiles.
    exists reqs.
    destruct (fetch_messages _ _ _ _ _ _) as [[messages|code|] w1];
      cbn [fst snd] in *.
    + split; [by rewrite after_fetch_sent|].
      intros i req e Hreq He. by destruct (Herr i req e Hreq He) as [? _].
    + split; [done|]. intros i req e Hreq He.
      destruct (Herr i req e Hreq He) as ([= ->] & ? & ?). by split_and!.
    + split; [done|]. intros i req e Hreq He.
      by destruct (Herr i req e Hreq He) as [? _].
  - intros server fuel channel_id token lim w out. subst out.
    destruct (fetch_messages_errors server fuel channel_id token lim w)
      as (reqs & Hsent & Herr).
    exists reqs. split; [done|]. intros i req e Hreq He.
    destruct (Herr i req e Hreq He) as (? & ? & _). by split.
  - done.
  - intros status_code messages text H200 H401 H403 H404. unfold error_of.
    by rewrite !(proj2 (Z.eqb_neq _ _)) by done.
  - done.
  - apply error_report_inj.
Qed.

(** [fetch_failure_aborts] on a server that answers 401. *)
Lemma fetch_failure_aborts_witness :
  (main_body no_parse (constant_server (HttpResponse 401 [] "")) noon writable
     5 "token" "42" (Finite 250) "messages.txt" true empty_world).1
  = SysExit 1
  /\ files (main_body no_parse (constant_server (HttpResponse 401 [] "")) noon
              writable 5 "token" "42" (Finite 250) "messages.txt" true
              empty_world).2
     = ∅.
Proof.
  destruct (proj1 fetch_failure_aborts no_parse
              (constant_server (HttpResponse 401 [] "")) noon writable
              5 "token" "42" (Finite 250) "messages.txt" true empty_world)
    as (reqs & Hsent & Herr).
  destruct reqs as [|req reqs]; [by vm_compute in Hsent|].
  destruct (Herr 0 req AuthenticationError eq_refl eq_refl)
    as (Hexit & _ & Hfiles & _).
  by split.
Defined.

(** ** [format_message] *)

Section Rendering.

Variable fromisoformat : string -> option datetime.



End Rendering.










(** The rendering, character by character: a message of 2024, one
    whose timestamp does not parse, and a year below 1000, which the
    platform prints without padding. *)
Lemma format_message_renders :
  format_message sample_parse
    (Message "1" (Some (Author (Some "alice"))) (Some "2024-01-02T03:04:05Z")
       (Some "hi there") None None)
  = "[2024-01-02 03:04:05 UTC] alice: hi there"
  /\ format_message sample_parse
       (Message "2" None (Some "yesterday") (Some "hi") None None)
     = "[yesterday] Unknown: hi"
  /\ strftime_utc (Datetime 999 1 2 3 4 5 0 None) = "999-01-02 03:04:05 UTC"
  /\ read_time "999-01-02 03:04:05 UTC" = Some (999, 1, 2, 3, 4, 5)
  /\ read_time "0999-01-02 03:04:05 UTC" = None.
Proof. by vm_compute. Qed.

(** ** The exports *)

Section Exports.

Variable fromisoformat : string -> option datetime.
Variable server : list request -> request -> response.
Variable now : nat -> datetime.
Variable open_error : string -> option string.

Lemma fold_left_append {A} (g : A -> string) (l : list A) (acc : string) :
  fold_left (fun f x => f +:+ g x) l acc = acc +:+ join (map g l).
Proof.
  revert acc. induction l as [|x l IH]; intros acc; simpl.
  { by rewrite string_app_nil_r. }
  by rewrite IH, string_app_assoc.
Qed.

(** The four header lines and the blank line after them. *)
Lemma write_header_lines title count_label count t :
  write_header title count_label count t
  = title +:+ newline
    +:+ count_label +:+ pretty count +:+ newline
    +:+ "Exported on: " +:+ strftime t +:+ newline
    +:+ string_repeat "=" 80 +:+ newline
    +:+ newline.
Proof.
  unfold write_header. cbn zeta. rewrite string_app_nil_l.
  by rewrite !string_app_assoc.
Qed.

Lemma save_messages_writes messages output_file w :
  open_error output_file = None ->
  save_messages fromisoformat now open_error messages output_file w
  = (Return (),
     log_lines
       [newline +:+ "Successfully saved " +:+ pretty (length messages)
        +:+ " messages to " +:+ output_file]
       (World (console w)
          (<[output_file :=
               write_header "Discord Messages Export" "Total messages: "
                 (length messages) (now (clock_reads w))
               +:+ join (map (message_block fromisoformat) (rev messages))]>
             (files w))
          (sent w) (S (clock_reads w)))).
Proof.
  intros Hopen. unfold save_messages. rewrite Hopen.
  unfold mbind, M_bind, datetime_now, write_file, print. cbn -[write_header].
  by rewrite (fold_left_append (message_block fromisoformat)).
Qed.

End Exports.

(** C8: when the output file opens, [save_messages] leaves in it the
    header followed by one block per message, [N] blocks for [N]
    messages, in the reverse of the order of the batch; each block is
    the rendered message followed by a blank line. *)
Theorem save_messages_blocks
  fromisoformat now open_error messages output_file w :
  open_error output_file = None ->
  exists blocks,
    (save_messages fromisoformat now open_error messages output_file w).1
    = Return ()
    /\ files (save_messages fromisoformat now open_error messages output_file w).2
       !! output_file
       = Some (write_header "Discord Messages Export" "Total messages: "
                 (length messages) (now (clock_reads w))
               +:+ join blocks)
    /\ length blocks = length messages
    /\ blocks
       = map (fun m => format_message fromisoformat m +:+ newline +:+ newline)
           (rev messages)
    /\ forall i m,
         messages !! i = Some m ->
         blocks !! (length messages - 1 - i)
         = Some (format_message fromisoformat m +:+ newline +:+ newline).
Proof.
  intros Hopen. rewrite save_messages_writes by done.
  exists (map (message_block fromisoformat) (rev messages)).
  split_and!.
  - done.
  - simpl. by rewrite lookup_insert_eq.
  - by rewrite length_map, length_rev.
  - done.
  - intros i m Hi. rewrite list_lookup_fmap.
    pose proof (lookup_lt_Some _ _ _ Hi) as Hlt.
    rewrite rev_alt. change (rev_append messages []) with (reverse messages).
    rewrite reverse_lookup by lia.
    replace (length messages - S (length messages - 1 - i)) with i by lia.
    by rewrite Hi.
Qed.

(** [save_messages_blocks] on a batch of two messages. *)
Lemma save_messages_blocks_witness :
  exists blocks,
    files (save_messages no_parse noon writable (sample_channel 2)
             "messages.txt" empty_world).2 !! "messages.txt"
    = Some (write_header "Discord Messages Export" "Total messages: " 2
              (noon 0) +:+ join blocks)
    /\ blocks = ["[] Unknown: message 1" +:+ newline +:+ newline;
                 "[] Unknown: message 2" +:+ newline +:+ newline].
Proof.
  destruct (save_messages_blocks no_parse noon writable (sample_channel 2)
              "messages.txt" empty_world eq_refl)
    as (blocks & _ & Hfile & _ & Hblocks & _).
  exists blocks. split; [exact Hfile | by rewrite Hblocks].
Defined.

(** C9, as the code has it: [save_messages] on an empty list writes
    the four header lines, with a total of 0, the blank line that ends
    the header and no block; but [main] saves only a batch that is not
    empty, so a run whose first page is empty ends normally and leaves
    the files as they were. *)
Theorem export_of_empty_batch :
  (forall fromisoformat now open_error output_file w,
     open_error output_file = None ->
     files (save_messages fromisoformat now open_error [] output_file w).2
     !! output_file
     = Some ("Discord Messages Export" +:+ newline
             +:+ "Total messages: 0" +:+ newline
             +:+ "Exported on: " +:+ strftime (now (clock_reads w)) +:+ newline
             +:+ string_repeat "=" 80 +:+ newline
             +:+ newline))
  /\ (forall fromisoformat server now open_error fuel token channel_id lim
             output extract w text,
        let out :=
          main_body fromisoformat server now open_error (S fuel) token
            channel_id lim output extract w in
        limit_pos lim = true ->
        server (sent w)
          (Request ("https://discord.com/api/v10/channels/" +:+ channel_id
                    +:+ "/messages") token (limit_min lim 100) None)
        = HttpResponse 200 [] text ->
        out.1 = Return () /\ files out.2 = files w).
Proof.
  split.
  - intros fromisoformat now open_error output_file w Hopen.
    rewrite save_messages_writes by done. simpl files.
    rewrite lookup_insert_eq, write_header_lines. simpl join.
    by rewrite !string_app_nil_r.
  - intros fromisoformat server now open_error fuel token channel_id lim
      output extract w text out Hpos Hresp. subst out.
    destruct (main_body_fetch fromisoformat server now open_error (S fuel)
                token channel_id lim output extract w)
      as (output_file & summary & ->).
    rewrite fetch_messages_loop.
    rewrite (fetch_loop_round_page server _ token fuel _ _ [] text);
      [done | done | exact Hresp].
Qed.

(** [export_of_empty_batch] on an empty channel. *)
Lemma export_of_empty_batch_witness :
  (main_body no_parse (channel_server []) noon writable 1 "token" "42"
     (Finite 100) "messages.txt" false empty_world).1 = Return ()
  /\ files (main_body no_parse (channel_server []) noon writable 1 "token"
              "42" (Finite 100) "messages.txt" false empty_world).2
     = ∅.
Proof.
  apply (proj2 export_of_empty_batch no_parse (channel_server []) noon
           writable 0 "token" "42" (Finite 100) "messages.txt" false
           empty_world ""); reflexivity.
Defined.

(** C9 as worded fails for the program: on an empty channel the run
    ends normally and there is no export file. *)
Lemma empty_batch_writes_no_file :
  (main_body no_parse (channel_server []) noon writable 1 "token" "42"
     (Finite 100) "messages.txt" false empty_world).1 = Return ()
  /\ files (main_body no_parse (channel_server []) noon writable 1 "token"
              "42" (Finite 100) "messages.txt" false empty_world).2
     !! "messages.txt" = None.
Proof. by vm_compute. Qed.

(** ** More on the paginator *)

Section Requests.

Variable server : list request -> request -> response.
Variables url token : string.

Lemma make_request_well_formed st :
  limit_pos (remaining st) = true ->
  well_formed_request url token (make_request url token st).
Proof.
  intros Hpos. unfold well_formed_request, make_request. simpl.
  split; [done|]. split; [done|].
  destruct (remaining st) as [n|]; simpl in *; [|lia].
  apply Z.ltb_lt in Hpos. lia.
Qed.

Lemma fetch_loop_well_formed fuel st w :
  exists reqs,
    sent (fetch_loop server fuel url token st w).2 = sent w ++ reqs
    /\ Forall (well_formed_request url token) reqs.
Proof.
  revert fuel st w.
  apply (fetch_loop_rounds server url token
           (fun _ _ w out =>
              exists reqs,
                sent out.2 = sent w ++ reqs
                /\ Forall (well_formed_request url token) reqs));
    cbn [fst snd].
  - intros _ st w _. exists []. by rewrite app_nil_r.
  - intros st w _. exists []. by rewrite app_nil_r.
  - intros _ st w e Hpos _. eexists [_]. split; [done|].
    by apply Forall_singleton, make_request_well_formed.
  - intros _ st w Hpos _. eexists [_]. split; [done|].
    by apply Forall_singleton, make_request_well_formed.
  - intros _ st w page Hpos _ _ _. eexists [_]. split; [done|].
    by apply Forall_singleton, make_request_well_formed.
  - intros _ st w page out Hpos _ _ _ (reqs & -> & Hall).
    exists (make_request url token st :: reqs).
    split; [simpl; by rewrite <- app_assoc|].
    constructor; [by apply make_request_well_formed | done].
Qed.

(** The number of rounds a finite limit allows: [ceil(n / 100)]. *)
Lemma fetch_loop_request_count fuel st w n :
  remaining st = Finite n ->
  exists reqs,
    sent (fetch_loop server fuel url token st w).2 = sent w ++ reqs
    /\ (Z.of_nat (length reqs) <= Z.max 0 ((n + 99) / 100))%Z
    /\ (Z.to_nat ((n + 99) / 100) <= fuel ->
        (fetch_loop server fuel url token st w).1 <> OutOfFuel).
Proof.
  revert n. revert fuel st w.
  apply (fetch_loop_rounds server url token
           (fun fuel st w out =>
              forall n, remaining st = Finite n ->
                exists reqs,
                  sent out.2 = sent w ++ reqs
                  /\ (Z.of_nat (length reqs) <= Z.max 0 ((n + 99) / 100))%Z
                  /\ (Z.to_nat ((n + 99) / 100) <= fuel ->
                      out.1 <> OutOfFuel)));
    cbn [fst snd].
  - intros fuel st w _ n _. exists []. rewrite app_nil_r.
    split_and!; [done | simpl; lia | done].
  - intros st w Hpos n Hn. exists []. rewrite app_nil_r.
    rewrite Hn in Hpos. apply Z.ltb_lt in Hpos.
    split_and!; [done | simpl; lia |].
    intros Hfuel. exfalso.
    assert (1 <= (n + 99) / 100)%Z by (apply Z.div_le_lower_bound; lia).
    lia.
  - intros fuel st w e Hpos _ n Hn. eexists [_]. split_and!; [done| |done].
    rewrite Hn in Hpos. apply Z.ltb_lt in Hpos.
    assert (1 <= (n + 99) / 100)%Z by (apply Z.div_le_lower_bound; lia).
    simpl length. lia.
  - intros fuel st w Hpos _ n Hn. eexists [_]. split_and!; [done| |done].
    rewrite Hn in Hpos. apply Z.ltb_lt in Hpos.
    assert (1 <= (n + 99) / 100)%Z by (apply Z.div_le_lower_bound; lia).
    simpl length. lia.
  - intros fuel st w page Hpos _ _ _ n Hn. eexists [_].
    split_and!; [done| |done].
    rewrite Hn in Hpos. apply Z.ltb_lt in Hpos.
    assert (1 <= (n + 99) / 100)%Z by (apply Z.div_le_lower_bound; lia).
    simpl length. lia.
  - intros fuel st w page out Hpos _ Hne Hfull IH n Hn.
    rewrite Hn in Hpos, Hfull. apply Z.ltb_lt in Hpos. cbn [limit_min] in Hfull.
    destruct (IH (n - Z.of_nat (length page))%Z) as (reqs & -> & Hcount & Hfuel).
    { by rewrite remaining_next, Hn. }
    assert ((n - Z.of_nat (length page) + 99) / 100 + 1 <= (n + 99) / 100)%Z
      as Hdiv.
    { destruct (Z.le_gt_cases n 100).
      - assert ((n - Z.of_nat (length page) + 99) / 100 <= 0)%Z.
        { apply Z.lt_succ_r, Z.div_lt_upper_bound; lia. }
        assert (1 <= (n + 99) / 100)%Z by (apply Z.div_le_lower_bound; lia).
        lia.
      - replace (n + 99)%Z with (n - 100 + 99 + 1 * 100)%Z by lia.
        rewrite Z.div_add by lia.
        assert ((n - Z.of_nat (length page) + 99) / 100
                <= (n - 100 + 99) / 100)%Z by (apply Z.div_le_mono; lia).
        lia. }
    assert (1 <= (n + 99) / 100)%Z by (apply Z.div_le_lower_bound; lia).
    exists (make_request url token st :: reqs).
    split_and!.
    + simpl. by rewrite <- app_assoc.
    + simpl length. lia.
    + intros Hle. apply Hfuel. lia.
Qed.

Lemma page_of_Some resp page :
  page_of resp = Some page -> exists text, resp = HttpResponse 200 page text.
Proof.
  destruct resp as [status_code messages text|e]; simpl; [|done].
  destruct (Z.eqb_spec status_code 200) as [->|]; [|done].
  intros [= ->]. by eexists.
Qed.

(** What the loop returns is what it had, followed by the pages it
    received, in the order received. *)
Lemma fetch_loop_pages fuel st w :
  exists reqs,
    sent (fetch_loop server fuel url token st w).2 = sent w ++ reqs
    /\ forall messages,
         (fetch_loop server fuel url token st w).1 = Return messages ->
         exists pages,
           Some <$> pages = page_of <$> answers server (sent w) reqs
           /\ messages = all_messages st ++ concat pages.
Proof.
  revert fuel st w.
  apply (fetch_loop_rounds server url token
           (fun _ st w out =>
              exists reqs,
                sent out.2 = sent w ++ reqs
                /\ forall messages,
                     out.1 = Return messages ->
                     exists pages,
                       Some <$> pages = page_of <$> answers server (sent w) reqs
                       /\ messages = all_messages st ++ concat pages));
    cbn [fst snd].
  - intros _ st w _. exists []. rewrite app_nil_r. split; [done|].
    intros messages [= <-]. exists []. by rewrite app_nil_r.
  - intros st w _. exists []. by rewrite app_nil_r.
  - intros _ st w e _ _. by eexists [_].
  - intros _ st w _ Hpage. eexists [_]. split; [done|].
    intros messages [= <-]. exists [[]]. simpl. rewrite Hpage.
    by rewrite app_nil_r.
  - intros _ st w page _ Hpage _ _. eexists [_]. split; [done|].
    intros messages [= <-]. exists [page]. simpl. rewrite Hpage.
    by rewrite app_nil_r.
  - intros _ st w page out _ Hpage _ _ (reqs & -> & Hret).
    exists (make_request url token st :: reqs).
    split; [simpl; by rewrite <- app_assoc|].
    intros messages Hmessages.
    destruct (Hret messages Hmessages) as (pages & Hpages & ->).
    exists (page :: pages). split.
    + cbn [answers]. rewrite !fmap_cons, Hpage. f_equal. exact Hpages.
    + by rewrite all_messages_next, <- app_assoc.
Qed.

(** With a server that returns no more than it is asked for, the
    loop never collects more than [remaining] further messages. *)
Lemma fetch_loop_bounded fuel st w n :
  honours_limit server ->
  remaining st = Finite n ->
  forall messages,
    (fetch_loop server fuel url token st w).1 = Return messages ->
    (Z.of_nat (length messages)
     <= Z.of_nat (length (all_messages st)) + Z.max 0 n)%Z.
Proof.
  intros Hserver. revert n. revert fuel st w.
  apply (fetch_loop_rounds server url token
           (fun _ st _ out =>
              forall n, remaining st = Finite n ->
                forall messages,
                  out.1 = Return messages ->
                  (Z.of_nat (length messages)
                   <= Z.of_nat (length (all_messages st)) + Z.max 0 n)%Z));
    cbn [fst snd]; try done.
  - intros _ st _ _ n _ messages [= <-]. lia.
  - intros _ st _ _ _ n _ messages [= <-]. lia.
  - intros _ st w page Hpos _ _ Hshort n Hn messages [= <-].
    rewrite Hn in Hshort. cbn [limit_min] in Hshort.
    rewrite ?all_messages_next, length_app. lia.
  - intros _ st w page out Hpos Hpage _ Hfull IH n Hn messages Hmessages.
    apply page_of_Some in Hpage as [text Hresp].
    pose proof (make_request_well_formed st Hpos) as (_ & _ & Hlimit).
    apply Hserver in Hresp; [|lia].
    change (req_limit (make_request url token st))
      with (limit_min (remaining st) 100) in Hresp.
    rewrite Hn in Hfull, Hresp, Hpos. cbn [limit_min] in Hfull, Hresp.
    apply Z.ltb_lt in Hpos.
    specialize (IH (n - Z.of_nat (length page))%Z).
    rewrite remaining_next, Hn in IH. specialize (IH eq_refl _ Hmessages).
    rewrite all_messages_next, length_app in IH. lia.
Qed.

(** After a full page that leaves something to fetch, the next request
    carries the last identifier of the page as its cursor, unless that
    identifier is empty: then it carries none. *)
Lemma fetch_loop_next_cursor fuel st w page text i :
  limit_pos (remaining st) = true ->
  server (sent w) (make_request url token st) = HttpResponse 200 page text ->
  msg_id <$> last page = Some i ->
  (limit_min (remaining st) 100 <= Z.of_nat (length page))%Z ->
  limit_pos (limit_sub (remaining st) (Z.of_nat (length page))) = true ->
  exists reqs,
    sent (fetch_loop server (S (S fuel)) url token st w).2
    = sent w ++ make_request url token st
        :: Request url token
             (limit_min (limit_sub (remaining st) (Z.of_nat (length page))) 100)
             (if truthy i then Some i else None)
        :: reqs.
Proof.
  intros Hpos Hresp Hlast Hfull Hpos'.
  rewrite (fetch_loop_round_page server url token _ st w page text) by done.
  cbn zeta. destruct page as [|m ms]; [done|].
  apply Z.ltb_ge in Hfull. rewrite Hfull.
  match goal with
  | |- context [fetch_loop server (S fuel) url token ?st' ?w'] =>
      destruct (fetch_loop_sent_first server url token fuel st' w')
        as [reqs ->]; [by rewrite remaining_next|]
  end.
  exists reqs. cbn [sent log_lines log_request]. rewrite <- app_assoc.
  do 3 f_equal. unfold make_request.
  by rewrite remaining_next, last_id_next, Hlast.
Qed.

(** The loop neither writes a file nor reads the clock, and it only
    adds lines to the console. *)
Lemma fetch_loop_effects fuel st w :
  files (fetch_loop server fuel url token st w).2 = files w
  /\ clock_reads (fetch_loop server fuel url token st w).2 = clock_reads w
  /\ exists lines,
       console (fetch_loop server fuel url token st w).2 = console w ++ lines.
Proof.
  revert fuel st w.
  apply (fetch_loop_rounds server url token
           (fun _ _ w out =>
              files out.2 = files w /\ clock_reads out.2 = clock_reads w
              /\ exists lines, console out.2 = console w ++ lines));
    cbn [fst snd].
  - intros _ _ w _. split_and!; [done..|]. exists []. by rewrite app_nil_r.
  - intros _ w _. split_and!; [done..|]. exists []. by rewrite app_nil_r.
  - intros _ st w e _ _. split_and!; [done..|]. by eexists.
  - intros _ st w _ _. split_and!; [done..|]. by eexists.
  - intros _ st w page _ _ _ _. split_and!; [done..|]. by eexists.
  - intros _ st w page out _ _ _ _ (-> & -> & lines & ->).
    split_and!; [done..|]. eexists. simpl. by rewrite <- app_assoc.
Qed.

(** Without a limit the loop returns only after a page shorter than
    the 100 messages it asks for. *)
Lemma fetch_loop_unbounded fuel st w messages :
  remaining st = Infinite ->
  (fetch_loop server fuel url token st w).1 = Return messages ->
  exists reqs page,
    sent (fetch_loop server fuel url token st w).2 = sent w ++ reqs
    /\ last (answers server (sent w) reqs) ≫= page_of = Some page
    /\ length page < 100.
Proof.
  revert messages. revert fuel st w.
  apply (fetch_loop_rounds server url token
           (fun _ st w out =>
              forall messages,
                remaining st = Infinite ->
                out.1 = Return messages ->
                exists reqs page,
                  sent out.2 = sent w ++ reqs
                  /\ last (answers server (sent w) reqs) ≫= page_of = Some page
                  /\ length page < 100));
    cbn [fst snd]; try done.
  - intros _ st w Hpos messages Hinf _. by rewrite Hinf in Hpos.
  - intros _ st w _ Hpage messages _ _. eexists [_], []. simpl.
    rewrite Hpage. split_and!; [done..|lia].
  - intros _ st w page _ Hpage _ Hshort messages Hinf _.
    eexists [_], page. simpl. rewrite Hpage. rewrite Hinf in Hshort.
    cbn [limit_min] in Hshort. split_and!; [done..|lia].
  - intros _ st w page out _ Hpage _ _ IH messages Hinf Hret.
    destruct (IH messages) as (reqs & page' & -> & Hlast & Hlen);
      [by rewrite remaining_next, Hinf | done |].
    exists (make_request url token st :: reqs), page'.
    split_and!; [simpl; by rewrite <- app_assoc | | done].
    cbn [answers]. cbn [sent log_lines log_request] in Hlast.
    destruct (answers server (sent w ++ [make_request url token st]) reqs)
      as [|resp resps] eqn:Hanswers; [done|].
    by rewrite last_cons_cons.
Qed.

End Requests.

(** X1: every request [fetch_messages] sends goes to the messages
    URL of the channel with the token as its [Authorization], and
    asks for at least 1 and at most 100 messages, whatever the limit
    and whatever the server answers. *)
Theorem fetch_messages_request_bounds server fuel channel_id token lim w :
  exists reqs,
    sent (fetch_messages server fuel channel_id token lim w).2 = sent w ++ reqs
    /\ Forall
         (well_formed_request
            ("https://discord.com/api/v10/channels/" +:+ channel_id
             +:+ "/messages") token)
         reqs.
Proof.
  rewrite fetch_messages_loop.
  exact (fetch_loop_well_formed server _ token fuel _ (log_lines _ w)).
Qed.

(** X2: with a finite limit [n], [fetch_messages] sends at most
    [ceil(n / 100)] requests (none when [n <= 0]), whatever the server
    answers, and that many rounds of fuel are enough for the loop to
    end. *)
Theorem fetch_messages_request_count server fuel channel_id token n w :
  exists reqs,
    sent (fetch_messages server fuel channel_id token (Finite n) w).2
    = sent w ++ reqs
    /\ (Z.of_nat (length reqs) <= Z.max 0 ((n + 99) / 100))%Z
    /\ (Z.to_nat ((n + 99) / 100) <= fuel ->
        (fetch_messages server fuel channel_id token (Finite n) w).1
        <> OutOfFuel).
Proof.
  rewrite fetch_messages_loop.
  exact (fetch_loop_request_count server _ token fuel
           (LoopState [] (Finite n) None) (log_lines _ w) n eq_refl).
Qed.

(** [fetch_messages_request_count] with a limit of 250 on a channel of
    300 messages: three rounds of fuel are enough. *)
Lemma fetch_messages_request_count_witness :
  (fetch_messages (channel_server (sample_channel 300)) 3 "42" "token"
     (Finite 250) empty_world).1 <> OutOfFuel.
Proof.
  destruct (fetch_messages_request_count (channel_server (sample_channel 300))
              3 "42" "token" 250 empty_world) as (reqs & _ & _ & Hfuel).
  apply Hfuel. vm_compute. lia.
Defined.

(** X3: when [fetch_messages] returns, every response it received was
    a page (status 200), and the list it returns is those pages one
    after the other, in the order received: nothing is dropped,
    reordered or added. *)
Theorem fetch_messages_returns_pages server fuel channel_id token lim w :
  exists reqs,
    sent (fetch_messages server fuel channel_id token lim w).2 = sent w ++ reqs
    /\ forall messages,
         (fetch_messages server fuel channel_id token lim w).1 = Return messages ->
         exists pages,
           Some <$> pages = page_of <$> answers server (sent w) reqs
           /\ messages = concat pages.
Proof.
  rewrite fetch_messages_loop.
  exact (fetch_loop_pages server _ token fuel (LoopState [] lim None)
           (log_lines _ w)).
Qed.

(** [fetch_messages_returns_pages] on a channel of 150 messages: the
    result is the full first page followed by the short second one. *)
Lemma fetch_messages_returns_pages_witness :
  exists reqs pages,
    sent (fetch_messages (channel_server (sample_channel 150)) 3 "42" "token"
            (Finite 250) empty_world).2 = reqs
    /\ Some <$> pages
       = page_of <$> answers (channel_server (sample_channel 150)) [] reqs
    /\ sample_channel 150 = concat pages.
Proof.
  destruct (fetch_messages_returns_pages (channel_server (sample_channel 150))
              3 "42" "token" (Finite 250) empty_world) as (reqs & Hsent & Hret).
  destruct (Hret (sample_channel 150)) as (pages & Hpages & Hconcat);
    [by vm_compute|].
  by exists reqs, pages.
Defined.

Lemma channel_server_honours_limit channel :
  honours_limit (channel_server channel).
Proof.
  intros hist req status_code page text Hpos [= _ <- _].
  rewrite length_take. lia.
Qed.

(** X4: if the server never returns more messages than a request asks
    for, [fetch_messages] with a finite limit [n] returns at most [n]
    messages (none when [n <= 0]); the script itself does not cut the
    list. *)
Theorem fetch_messages_bounded server fuel channel_id token n w messages :
  honours_limit server ->
  (fetch_messages server fuel channel_id token (Finite n) w).1
  = Return messages ->
  (Z.of_nat (length messages) <= Z.max 0 n)%Z.
Proof.
  intros Hserver Hret. rewrite fetch_messages_loop in Hret.
  exact (fetch_loop_bounded server _ token fuel
           (LoopState [] (Finite n) None) (log_lines _ w) n Hserver eq_refl
           messages Hret).
Qed.

(** [fetch_messages_bounded] with a limit of 250 on a channel of 300
    messages. *)
Lemma fetch_messages_bounded_witness :
  (Z.of_nat (length (take 250 (sample_channel 300))) <= Z.max 0 250)%Z.
Proof.
  apply (fetch_messages_bounded (channel_server (sample_channel 300)) 3 "42"
           "token" 250 empty_world (take 250 (sample_channel 300))).
  - apply channel_server_honours_limit.
  - by vm_compute.
Defined.

(** X5: after a first page that is full and leaves something to fetch,
    the second request carries the identifier of the last message of
    that page as [before] when the identifier is not empty, and no
    cursor when it is empty ([if last_message_id:]). *)
Theorem fetch_messages_second_request
  server fuel channel_id token lim w page text i :
  let url := "https://discord.com/api/v10/channels/" +:+ channel_id
             +:+ "/messages" in
  limit_pos lim = true ->
  server (sent w) (Request url token (limit_min lim 100) None)
  = HttpResponse 200 page text ->
  msg_id <$> last page = Some i ->
  (limit_min lim 100 <= Z.of_nat (length page))%Z ->
  limit_pos (limit_sub lim (Z.of_nat (length page))) = true ->
  exists reqs,
    sent (fetch_messages server (S (S fuel)) channel_id token lim w).2
    = sent w ++ Request url token (limit_min lim 100) None
        :: Request url token
             (limit_min (limit_sub lim (Z.of_nat (length page))) 100)
             (if truthy i then Some i else None)
        :: reqs.
Proof.
  intros url Hpos Hresp Hlast Hfull Hpos'. rewrite fetch_messages_loop.
  exact (fetch_loop_next_cursor server url token fuel (LoopState [] lim None)
           (log_lines _ w) page text i Hpos Hresp Hlast Hfull Hpos').
Qed.

(** [fetch_messages_second_request] on a server whose messages have an
    empty identifier: the second request carries no cursor. *)
Lemma fetch_messages_second_request_witness :
  exists reqs,
    sent (fetch_messages
            (constant_server
               (HttpResponse 200
                  (replicate 100 (Message "" None None None None None)) ""))
            2 "42" "token" (Finite 150) empty_world).2
    = [Request "https://discord.com/api/v10/channels/42/messages" "token" 100
         None;
       Request "https://discord.com/api/v10/channels/42/messages" "token" 50
         None] ++ reqs.
Proof.
  destruct (fetch_messages_second_request
              (constant_server
                 (HttpResponse 200
                    (replicate 100 (Message "" None None None None None)) ""))
              0 "42" "token" (Finite 150) empty_world
              (replicate 100 (Message "" None None None None None)) "" ""
              eq_refl eq_refl eq_refl) as [reqs Hsent];
    [by vm_compute | by vm_compute |].
  exists reqs. exact Hsent.
Defined.

(** X6: [fetch_messages] writes no file and does not read the clock;
    on the console it only adds lines, the first of them the
    announcement of the fetch. *)
Theorem fetch_messages_effects server fuel channel_id token lim w :
  files (fetch_messages server fuel channel_id token lim w).2 = files w
  /\ clock_reads (fetch_messages server fuel channel_id token lim w).2
     = clock_reads w
  /\ exists lines,
       console (fetch_messages server fuel channel_id token lim w).2
       = console w
         ++ ("Fetching messages from channel " +:+ channel_id +:+ "...")
            :: lines.
Proof.
  rewrite fetch_messages_loop.
  destruct (fetch_loop_effects server
              ("https://discord.com/api/v10/channels/" +:+ channel_id
               +:+ "/messages") token fuel (LoopState [] lim None)
              (log_lines
                 ["Fetching messages from channel " +:+ channel_id +:+ "..."] w))
    as (Hfiles & Hclock & lines & Hconsole).
  split_and!; [done..|]. exists lines. rewrite Hconsole. simpl.
  by rewrite <- app_assoc.
Qed.

(** X7: without a limit ([all]), [fetch_messages] returns only after
    a page of fewer than 100 messages: the last response it received
    is such a page. *)
Theorem fetch_all_ends_on_short_page server fuel channel_id token w messages :
  (fetch_messages server fuel channel_id token Infinite w).1 = Return messages ->
  exists reqs page,
    sent (fetch_messages server fuel channel_id token Infinite w).2
    = sent w ++ reqs
    /\ last (answers server (sent w) reqs) ≫= page_of = Some page
    /\ length page < 100.
Proof.
  rewrite fetch_messages_loop. intros Hret.
  exact (fetch_loop_unbounded server _ token fuel (LoopState [] Infinite None)
           (log_lines _ w) messages eq_refl Hret).
Qed.

(** [fetch_all_ends_on_short_page] on a channel of 150 messages. *)
Lemma fetch_all_ends_on_short_page_witness :
  exists reqs page,
    sent (fetch_messages (channel_server (sample_channel 150)) 2 "42" "token"
            Infinite empty_world).2 = reqs
    /\ last (answers (channel_server (sample_channel 150)) [] reqs) ≫= page_of
       = Some page
    /\ length page < 100.
Proof.
  apply (fetch_all_ends_on_short_page (channel_server (sample_channel 150)) 2
           "42" "token" empty_world (sample_channel 150)).
  by vm_compute.
Defined.

(** ** More on [extract_links] *)

Lemma unique_NoDup links : NoDup links -> unique links = links.
Proof.
  induction links as [|x l IH] using rev_ind; [done|].
  intros [Hl [Hx _]]%NoDup_app. rewrite unique_snoc, IH by done.
  destruct (decide (x ∈ l)) as [Hin|Hin]; [|done].
  exfalso. apply (Hx x Hin), list_elem_of_here.
Qed.

Lemma unique_app l1 l2 :
  unique (l1 ++ l2) = unique l1 ++ filter (.∉ l1) (unique l2).
Proof.
  induction l2 as [|x l2 IH] using rev_ind.
  { rewrite app_nil_r. change (unique []) with (@nil string).
    by rewrite filter_nil, app_nil_r. }
  rewrite app_assoc, !unique_snoc, IH.
  destruct (decide (x ∈ unique l2)) as [H2|H2].
  - rewrite decide_True; [done|].
    rewrite <- IH. apply elem_of_unique, elem_of_app. right.
    by apply elem_of_unique.
  - destruct (decide (x ∈ l1)) as [H1|H1].
    + rewrite decide_True by (apply elem_of_app; left; by apply elem_of_unique).
      rewrite filter_app, filter_cons_False by (intros H; by apply H).
      by rewrite filter_nil, app_nil_r.
    + rewrite decide_False.
      2:{ rewrite elem_of_app, elem_of_unique, list_elem_of_filter. tauto. }
      rewrite filter_app, filter_cons_True by done.
      by rewrite filter_nil, app_assoc.
Qed.

(** X8: removing duplicates a second time changes nothing, and a list
    without duplicates is returned as it is; so [extract_links] leaves
    the links of a batch untouched when no link is collected twice. *)
Theorem unique_idempotent :
  (forall links, unique (unique links) = unique links)
  /\ (forall links, NoDup links -> unique links = links)
  /\ (forall messages,
        NoDup (collect_links messages) ->
        extract_links messages = collect_links messages).
Proof.
  split_and!.
  - intros links. apply unique_NoDup, NoDup_unique.
  - apply unique_NoDup.
  - intros messages. apply unique_NoDup.
Qed.

(** [unique_idempotent] on two distinct links. *)
Lemma unique_idempotent_witness :
  unique ["http://a.io"; "http://b.io"] = ["http://a.io"; "http://b.io"].
Proof.
  apply (proj1 (proj2 unique_idempotent)).
  apply NoDup_cons. split.
  - by intros [= ]%list_elem_of_singleton.
  - apply NoDup_singleton.
Defined.

(** X9: the links of a batch followed by another are the links of the
    first batch, then those links of the second that the first did
    not have, in their order: later messages never move or remove a
    link found earlier. *)
Theorem extract_links_app messages1 messages2 :
  extract_links (messages1 ++ messages2)
  = extract_links messages1
    ++ filter (.∉ extract_links messages1) (extract_links messages2).
Proof.
  unfold extract_links.
  rewrite !collect_links_flat_map, flat_map_app, unique_app.
  f_equal. apply list_filter_iff. intros u. by rewrite elem_of_unique.
Qed.

(** X10: every link [extract_links] returns comes from a message of
    the batch: from its content, one of its attachments or one of its
    embeds; and every such link is returned. *)
Theorem extract_links_sources messages u :
  u ∈ extract_links messages
  <-> exists m,
        m ∈ messages
        /\ (u ∈ findall url_pattern (default "" (msg_content m))
            \/ (exists att,
                  att ∈ default [] (msg_attachments m)
                  /\ att_url att = Some u /\ u <> "")
            \/ exists e,
                 e ∈ default [] (msg_embeds m)
                 /\ ((embed_url e = Some u /\ u <> "")
                     \/ (exists sub,
                           media_url sub = Some u
                           /\ (embed_image e = Some sub
                               \/ embed_thumbnail e = Some sub
                               \/ embed_video e = Some sub)))).
Proof.
  unfold extract_links.
  rewrite elem_of_unique, collect_links_flat_map, elem_of_flat_map.
  assert (forall o : option string,
            u ∈ match o with
                | Some v => if truthy v then [v] else []
                | None => []
                end <-> o = Some u /\ u <> "") as Hdirect.
  { intros [[|a v]|]; simpl.
    - split; [by intros ?%elem_of_nil | by intros [[= <-] ?]].
    - rewrite list_elem_of_singleton.
      split; [by intros -> | by intros [[= ->] _]].
    - split; [by intros ?%elem_of_nil | by intros [? _]]. }
  assert (forall sub, u ∈ media_links sub
                      <-> exists s, media_url s = Some u /\ sub = Some s)
    as Hmedia.
  { intros [[[v|]]|]; simpl.
    - rewrite list_elem_of_singleton. split.
      + intros ->. by exists (Media (Some v)).
      + by intros ([?] & [= ->] & [= <-]).
    - split; [by intros ?%elem_of_nil | by intros ([?] & ? & [= <-])].
    - split; [by intros ?%elem_of_nil | by intros (? & ? & ?)]. }
  split.
  - intros (m & Hm & Hu). exists m. split; [done|].
    unfold message_links, content_links, attachment_links in Hu.
    rewrite !elem_of_app, !elem_of_flat_map in Hu.
    destruct Hu as [Hu | [(att & Hatt & Hu) | (e & He & Hu)]].
    + by left.
    + right; left. exists att. by rewrite <- Hdirect.
    + right; right. exists e. split; [done|].
      unfold embed_links in Hu. rewrite !elem_of_app, Hdirect, !Hmedia in Hu.
      destruct Hu as [Hu | [(s & ? & ?) | [(s & ? & ?) | (s & ? & ?)]]];
        [by left | right; exists s; tauto..].
  - intros (m & Hm & Hu). exists m. split; [done|].
    unfold message_links, content_links, attachment_links.
    rewrite !elem_of_app, !elem_of_flat_map.
    destruct Hu as [Hu | [(att & Hatt & Hu) | (e & He & Hu)]].
    + by left.
    + right; left. exists att. by rewrite Hdirect.
    + right; right. exists e. split; [done|].
      unfold embed_links. rewrite !elem_of_app, Hdirect, !Hmedia.
      destruct Hu as [Hu | (s & Hs & [H | [H | H]])]; [by left|..];
        right; [left | right; left | right; right]; by exists s.
Qed.

(** ** More on [format_message] *)

Lemma replace_Z_no_Z s : string_forall not_Z (replace_Z s) = true.
Proof.
  induction s as [|a s IH]; [done|]. simpl.
  destruct (Ascii.eqb a "Z") eqn:E; [done|].
  simpl. unfold not_Z at 1. by rewrite E.
Qed.

Lemma replace_Z_app s1 s2 :
  replace_Z (s1 +:+ s2) = replace_Z s1 +:+ replace_Z s2.
Proof.
  induction s1 as [|a s1 IH]; [done|].
  rewrite string_app_cons. simpl. rewrite IH.
  destruct (Ascii.eqb a "Z"); [by rewrite string_app_assoc | done].
Qed.

Lemma replace_Z_id s : string_forall not_Z s = true -> replace_Z s = s.
Proof.
  induction s as [|a s IH]; [done|]. simpl. unfold not_Z at 1.
  intros [Ha Hs]%andb_prop. destruct (Ascii.eqb a "Z"); [done|].
  by rewrite IH.
Qed.

(** X11: [format_message] replaces every [Z] of the timestamp by
    [+00:00], wherever it stands, before it parses it: the text given
    to the parser has no [Z], a timestamp without [Z] is parsed as it
    is, and the rendered time depends on the parser only through its
    results on texts without [Z]. *)
Theorem formatted_time_parser_input :
  (forall s, string_forall not_Z (replace_Z s) = true)
  /\ (forall s1 s2,
        replace_Z (s1 +:+ "Z" +:+ s2)
        = replace_Z s1 +:+ "+00:00" +:+ replace_Z s2)
  /\ (forall s, string_forall not_Z s = true -> replace_Z s = s)
  /\ (forall parse1 parse2 timestamp,
        (forall s, string_forall not_Z s = true -> parse1 s = parse2 s) ->
        formatted_time parse1 timestamp = formatted_time parse2 timestamp).
Proof.
  split_and!.
  - apply replace_Z_no_Z.
  - intros s1 s2. by rewrite !replace_Z_app.
  - apply replace_Z_id.
  - intros parse1 parse2 timestamp Hagree. unfold formatted_time.
    by rewrite Hagree by apply replace_Z_no_Z.
Qed.

(** [formatted_time_parser_input]: a timestamp with an offset reaches
    the parser unchanged. *)
Lemma formatted_time_parser_input_witness :
  replace_Z "2024-01-02T03:04:05+00:00" = "2024-01-02T03:04:05+00:00".
Proof.
  apply (proj1 (proj2 (proj2 formatted_time_parser_input))). reflexivity.
Defined.

Lemma fold_format_attachment_lines atts acc :
  fold_left format_attachment atts acc = acc +:+ join (map attachment_line atts).
Proof.
  exact (fold_left_append attachment_line atts acc).
Qed.

(** X12: a rendered message is its first line, then, when it has
    attachments, the line [  Attachments:] and one line
    [    - <filename>: <url>] per attachment in their order ([file]
    for a missing filename, nothing for a missing URL), then, when it
    has embeds, one line with their number; a message without the
    [attachments] or [embeds] key is rendered as one with none. *)
Theorem format_message_layout fromisoformat m :
  format_message fromisoformat m
  = first_line fromisoformat m
    +:+ attachments_block (default [] (msg_attachments m))
    +:+ embeds_line (default [] (msg_embeds m)).
Proof.
  unfold format_message, first_line. cbn zeta.
  set (line := "[" +:+ _).
  destruct (default [] (msg_attachments m)) as [|att atts].
  - destruct (default [] (msg_embeds m)) as [|e es]; simpl.
    + by rewrite !string_app_nil_r.
    + by rewrite string_app_nil_l.
  - rewrite fold_format_attachment_lines. unfold attachments_block.
    destruct (default [] (msg_embeds m)) as [|e es]; unfold embeds_line.
    + by rewrite string_app_nil_r, !string_app_assoc.
    + by rewrite !string_app_assoc.
Qed.

(** ** More on the exports and on [main] *)

Section Saving.

Variable fromisoformat : string -> option datetime.
Variable server : list request -> request -> response.
Variable now : nat -> datetime.
Variable open_error : string -> option string.

Lemma save_links_writes links output_file w :
  open_error output_file = None ->
  save_links now open_error links output_file w
  = (Return (),
     log_lines
       ["Successfully saved " +:+ pretty (length links) +:+ " links to "
        +:+ output_file]
       (World (console w)
          (<[output_file := links_export (now (clock_reads w)) links]> (files w))
          (sent w) (S (clock_reads w)))).
Proof.
  intros Hopen. unfold save_links. rewrite Hopen.
  unfold mbind, M_bind, datetime_now, write_file, print. cbn -[write_header].
  by rewrite (fold_left_append (fun link => link +:+ newline)).
Qed.

Lemma save_links_fails links output_file w e :
  open_error output_file = Some e ->
  save_links now open_error links output_file w
  = (SysExit 1, log_lines ["Error saving links file: " +:+ e] w).
Proof. intros Hopen. unfold save_links. by rewrite Hopen. Qed.

Lemma save_messages_fails messages output_file w e :
  open_error output_file = Some e ->
  save_messages fromisoformat now open_error messages output_file w
  = (SysExit 1, log_lines ["Error saving file: " +:+ e] w).
Proof. intros Hopen. unfold save_messages. by rewrite Hopen. Qed.

Lemma main_body_unfold fuel token channel_id lim output extract w :
  main_body fromisoformat server now open_error fuel token channel_id lim
    output extract w
  = match fetch_messages server fuel channel_id token lim
            (log_lines (summary_lines channel_id lim output) w) with
    | (Return messages, w1) =>
        after_fetch fromisoformat now open_error (output_file_name output)
          extract messages w1
    | (SysExit code, w1) => (SysExit code, w1)
    | (OutOfFuel, w1) => (OutOfFuel, w1)
    end.
Proof.
  unfold main_body, after_fetch, summary_lines, output_file_name.
  unfold mbind at 1 2 3 4. unfold M_bind at 1 2 3 4. unfold print at 1 2 3.
  cbn iota. rewrite !log_lines_app. cbn [app]. reflexivity.
Qed.

Lemma fetch_messages_unchanged fuel channel_id token lim w :
  files (fetch_messages server fuel channel_id token lim w).2 = files w
  /\ clock_reads (fetch_messages server fuel channel_id token lim w).2
     = clock_reads w.
Proof.
  rewrite fetch_messages_loop.
  destruct (fetch_loop_effects server
              ("https://discord.com/api/v10/channels/" +:+ channel_id
               +:+ "/messages") token fuel (LoopState [] lim None)
              (log_lines
                 ["Fetching messages from channel " +:+ channel_id +:+ "..."] w))
    as (Hfiles & Hclock & _).
  by split.
Qed.

(** The files after [after_fetch] on a batch that is not empty. *)
Lemma after_fetch_files output_file extract m ms w :
  let messages := m :: ms in
  let links := extract_links messages in
  let saved :=
    <[output_file :=
        messages_export fromisoformat (now (clock_reads w)) messages]>
      (files w) in
  let out :=
    after_fetch fromisoformat now open_error output_file extract messages w in
  match open_error output_file with
  | Some e =>
      out.1 = SysExit 1 /\ files out.2 = files w
      /\ console out.2 = console w ++ ["Error saving file: " +:+ e]
  | None =>
      if extract && bool_decide (links <> []) then
        match open_error "links.txt" with
        | Some e =>
            out.1 = SysExit 1 /\ files out.2 = saved
            /\ exists pre,
                 console out.2 = pre ++ ["Error saving links file: " +:+ e]
        | None =>
            out.1 = Return ()
            /\ files out.2
               = <["links.txt" :=
                     links_export (now (S (clock_reads w))) links]> saved
        end
      else out.1 = Return () /\ files out.2 = saved
  end.
Proof.
  intros messages links saved out. subst out saved messages.
  unfold after_fetch. cbn iota. unfold mbind, M_bind, print, mret, M_ret.
  destruct (open_error output_file) as [e|] eqn:Hopen.
  { by rewrite (save_messages_fails _ _ _ e). }
  rewrite save_messages_writes by done. cbn iota.
  destruct extract; cbn [andb]; [|done]. cbn iota.
  destruct links as [|l ls] eqn:Hlinks; subst links; rewrite !Hlinks.
  { rewrite bool_decide_eq_false_2 by (by intros []). done. }
  rewrite bool_decide_eq_true_2 by done.
  destruct (open_error "links.txt") as [e|] eqn:Hlinks_open.
  - rewrite !(save_links_fails _ _ _ e) by done. cbn iota.
    split_and!; [done..|]. by eexists.
  - rewrite !save_links_writes by done. cbn iota. done.
Qed.

End Saving.

Section Runs.

Variable fromisoformat : string -> option datetime.
Variable server : list request -> request -> response.
Variable now : nat -> datetime.
Variable open_error : string -> option string.

(** The files after a run of [main] whose fetch returns a batch that
    is not empty. *)
Lemma main_body_files fuel token channel_id lim output extract w m ms :
  let messages := m :: ms in
  let links := extract_links messages in
  let saved :=
    <[output_file_name output :=
        messages_export fromisoformat (now (clock_reads w)) messages]>
      (files w) in
  let out :=
    main_body fromisoformat server now open_error fuel token channel_id lim
      output extract w in
  (fetch_messages server fuel channel_id token lim
     (log_lines (summary_lines channel_id lim output) w)).1 = Return messages ->
  match open_error (output_file_name output) with
  | Some e =>
      out.1 = SysExit 1 /\ files out.2 = files w
      /\ exists pre, console out.2 = pre ++ ["Error saving file: " +:+ e]
  | None =>
      if extract && bool_decide (links <> []) then
        match open_error "links.txt" with
        | Some e =>
            out.1 = SysExit 1 /\ files out.2 = saved
            /\ exists pre,
                 console out.2 = pre ++ ["Error saving links file: " +:+ e]
        | None =>
            out.1 = Return ()
            /\ files out.2
               = <["links.txt" :=
                     links_export (now (S (clock_reads w))) links]> saved
        end
      else out.1 = Return () /\ files out.2 = saved
  end.
Proof.
  intros messages links saved out Hfetch. subst out saved links messages.
  rewrite main_body_unfold.
  destruct (fetch_messages_unchanged server fuel channel_id token lim
              (log_lines (summary_lines channel_id lim output) w))
    as [Hfiles Hclock].
  destruct (fetch_messages _ _ _ _ _ _) as [r w1]. cbn [fst snd] in *.
  subst r.
  pose proof (after_fetch_files fromisoformat now open_error
                (output_file_name output) extract m ms w1) as H.
  cbn zeta in H. rewrite Hfiles, Hclock in H. cbn [files clock_reads log_lines] in H.
  destruct (open_error (output_file_name output)); [|exact H].
  destruct H as (? & ? & ->). split_and!; [done..|]. by eexists.
Qed.

End Runs.

(** X13: when its file opens, [save_links] returns normally and leaves
    in that file the header with the number of links, then one line
    per link in the order given; no other file changes. *)
Theorem save_links_lines now open_error links output_file w :
  open_error output_file = None ->
  (save_links now open_error links output_file w).1 = Return ()
  /\ files (save_links now open_error links output_file w).2 !! output_file
     = Some (write_header "Extracted Links" "Total links: " (length links)
               (now (clock_reads w))
             +:+ join (map (fun link => link +:+ newline) links))
  /\ forall path,
       path <> output_file ->
       files (save_links now open_error links output_file w).2 !! path
       = files w !! path.
Proof.
  intros Hopen. rewrite save_links_writes by done. cbn [fst snd files log_lines].
  split_and!; [done | by rewrite lookup_insert_eq |].
  intros path Hpath. by rewrite lookup_insert_ne.
Qed.

(** [save_links_lines] on two links. *)
Lemma save_links_lines_witness :
  files (save_links noon writable ["http://b.io"; "https://a.co/x"]
           "links.txt" empty_world).2 !! "links.txt"
  = Some (write_header "Extracted Links" "Total links: " 2 (noon 0)
          +:+ join ["http://b.io" +:+ newline; "https://a.co/x" +:+ newline]).
Proof.
  apply (save_links_lines noon writable ["http://b.io"; "https://a.co/x"]
           "links.txt" empty_world eq_refl).
Defined.



(** X15: the links always go to [links.txt]; when the output name of
    the messages is [links.txt] too, links are asked for and some are
    found, the file holds the links at the end of the run and the
    export of the messages is lost. *)
Theorem links_file_replaces_export
  fromisoformat server now open_error fuel token channel_id lim output w m ms :
  let out :=
    main_body fromisoformat server now open_error fuel token channel_id lim
      output true w in
  (fetch_messages server fuel channel_id token lim
     (log_lines (summary_lines channel_id lim output) w)).1
  = Return (m :: ms) ->
  output_file_name output = "links.txt" ->
  extract_links (m :: ms) <> [] ->
  open_error "links.txt" = None ->
  out.1 = Return ()
  /\ files out.2
     = <["links.txt" :=
           links_export (now (S (clock_reads w))) (extract_links (m :: ms))]>
         (files w).
Proof.
  intros out Hfetch Hname Hsome Hopen. subst out.
  pose proof (main_body_files fromisoformat server now open_error fuel token
                channel_id lim output true w m ms Hfetch) as H.
  cbn zeta in H. rewrite Hname, Hopen in H. cbn [andb] in H.
  rewrite bool_decide_eq_true_2 in H by done.
  destruct H as [Hret ->]. split; [done|]. by rewrite insert_insert_eq.
Qed.

(** [links_file_replaces_export] with the output name [links]. *)
Lemma links_file_replaces_export_witness :
  files (main_body no_parse (channel_server link_channel) noon writable 1
           "token" "42" (Finite 100) "links" true empty_world).2
  = <["links.txt" := links_export (noon 1) ["https://a.co/x"; "http://b.io"]]>
      ∅.
Proof.
  apply (links_file_replaces_export no_parse (channel_server link_channel) noon
           writable 1 "token" "42" (Finite 100) "links" empty_world
           (Message "2" None None (Some "see https://a.co/x") None None)
           [Message "1" None None (Some "http://b.io and https://a.co/x")
              None None]);
    by vm_compute.
Defined.

(** X16: when the output file of the messages cannot be opened, the
    run ends with [sys.exit(1)] after the line [Error saving file: ...]:
    no file changes and the links are not extracted, asked for or
    not. *)
Theorem export_failure_aborts
  fromisoformat server now open_error fuel token channel_id lim output
  extract w m ms e :
  let out :=
    main_body fromisoformat server now open_error fuel token channel_id lim
      output extract w in
  (fetch_messages server fuel channel_id token lim
     (log_lines (summary_lines channel_id lim output) w)).1
  = Return (m :: ms) ->
  open_error (output_file_name output) = Some e ->
  out.1 = SysExit 1 /\ files out.2 = files w
  /\ exists pre, console out.2 = pre ++ ["Error saving file: " +:+ e].
Proof.
  intros out Hfetch Hopen. subst out.
  pose proof (main_body_files fromisoformat server now open_error fuel token
                channel_id lim output extract w m ms Hfetch) as H.
  cbn zeta in H. by rewrite Hopen in H.
Qed.

(** [export_failure_aborts] where [messages.txt] cannot be opened. *)
Lemma export_failure_aborts_witness :
  (main_body no_parse (channel_server link_channel) noon read_only 1 "token"
     "42" (Finite 100) "messages" true empty_world).1 = SysExit 1
  /\ files (main_body no_parse (channel_server link_channel) noon read_only 1
              "token" "42" (Finite 100) "messages" true empty_world).2
     = ∅.
Proof.
  destruct (export_failure_aborts no_parse (channel_server link_channel) noon
              read_only 1 "token" "42" (Finite 100) "messages" true empty_world
              (Message "2" None None (Some "see https://a.co/x") None None)
              [Message "1" None None (Some "http://b.io and https://a.co/x")
                 None None]
              "Permission denied")
    as (Hexit & Hfiles & _); [by vm_compute | by vm_compute |].
  by split.
Defined.

Lemma substring_all (s : string) : String.substring 0 (String.length s) s = s.
Proof. induction s as [|a s IH]; [done|]. simpl. by rewrite IH. Qed.

Lemma substring_suffix (p q : string) :
  String.substring (String.length p) (String.length q) (p +:+ q) = q.
Proof.
  induction p as [|a p IH]; [apply substring_all|].
  rewrite string_app_cons. simpl. apply IH.
Qed.

Lemma endswith_app (p q : string) : endswith (p +:+ q) q = true.
Proof.
  unfold endswith. rewrite string_length_app.
  replace (String.length p + String.length q - String.length q)%nat
    with (String.length p) by lia.
  rewrite substring_suffix, String.eqb_refl.
  rewrite andb_true_r. apply Nat.leb_le. lia.
Qed.

(** X17: the name the messages are saved under always ends with
    [.txt]: an output name that ends with [.txt] is kept, any other
    gets [.txt] appended (the test is by exact characters, so a name
    ending with [.TXT] gets it too); naming twice changes nothing. *)
Theorem output_file_name_txt output :
  endswith (output_file_name output) ".txt" = true
  /\ output_file_name output
     = (if endswith output ".txt" then output else output +:+ ".txt")
  /\ output_file_name (output_file_name output) = output_file_name output
  /\ output_file_name (output +:+ ".TXT") = output +:+ ".TXT" +:+ ".txt".
Proof.
  assert (endswith (output_file_name output) ".txt" = true) as Hends.
  { unfold output_file_name.
    destruct (endswith output ".txt") eqn:E; [done | apply endswith_app]. }
  split_and!; [done | done | |].
  - unfold output_file_name at 1. by rewrite Hends.
  - unfold output_file_name. rewrite <- string_app_assoc.
    assert (endswith (output +:+ ".TXT") ".txt" = false) as ->; [|done].
    unfold endswith. rewrite string_length_app.
    replace (String.length output + String.length ".TXT"
             - String.length ".txt")%nat
      with (String.length output) by (simpl; lia).
    change (String.length ".txt") with (String.length ".TXT").
    rewrite substring_suffix. by rewrite andb_false_r.
Qed.

(** ** The start of [main] *)

Section Starting.

Variable fromisoformat : string -> option datetime.
Variable server : list request -> request -> response.
Variable now : nat -> datetime.
Variable open_error : string -> option string.
Variable getenv : string -> option string.
Variable python_int : string -> option Z.

Lemma load_environment_ok w :
  missing (getenv "DISCORD_TOKEN") = false ->
  missing (getenv "CHANNEL_ID") = false ->
  load_environment getenv w
  = (Return (default "" (getenv "DISCORD_TOKEN"),
             default "" (getenv "CHANNEL_ID")), w).
Proof.
  intros Htoken Hchannel. unfold load_environment.
  by rewrite Htoken, Hchannel.
Qed.

Lemma load_environment_fails w :
  missing (getenv "DISCORD_TOKEN") || missing (getenv "CHANNEL_ID") = true ->
  exists lines,
    load_environment getenv w = (SysExit 1, log_lines lines w)
    /\ head lines
       = Some (if missing (getenv "DISCORD_TOKEN")
               then "Error: DISCORD_TOKEN not found in .env file"
               else "Error: CHANNEL_ID not found in .env file").
Proof.
  intros Hmissing. unfold load_environment.
  unfold mbind, M_bind, print, sys_exit.
  destruct (missing (getenv "DISCORD_TOKEN")).
  - eexists [_; _; _]. cbn iota. by rewrite !log_lines_app.
  - simpl in Hmissing. rewrite Hmissing.
    eexists [_; _; _]. cbn iota. by rewrite !log_lines_app.
Qed.

Lemma parse_limit_ok a w :
  (String.eqb (lower (limit_arg a)) "all"
   || match python_int (limit_arg a) with
      | Some n => (0 <? n)%Z
      | None => false
      end) = true ->
  parse_limit python_int (limit_arg a) w = (Return (config_limit python_int a), w)
  /\ limit_pos (config_limit python_int a) = true.
Proof.
  unfold parse_limit, config_limit.
  destruct (String.eqb (lower (limit_arg a)) "all"); [done|]. simpl.
  destruct (python_int (limit_arg a)) as [n|]; [|done]. intros Hpos.
  simpl. rewrite Hpos. split; [|done].
  by rewrite (proj2 (Z.leb_gt n 0)) by by apply Z.ltb_lt.
Qed.

Lemma parse_limit_fails a w :
  (String.eqb (lower (limit_arg a)) "all"
   || match python_int (limit_arg a) with
      | Some n => (0 <? n)%Z
      | None => false
      end) = false ->
  exists line,
    parse_limit python_int (limit_arg a) w = (SysExit 1, log_lines [line] w).
Proof.
  unfold parse_limit.
  destruct (String.eqb (lower (limit_arg a)) "all"); [done|]. simpl.
  destruct (python_int (limit_arg a)) as [n|]; [|by eexists].
  intros Hpos. apply Z.ltb_ge in Hpos.
  rewrite (proj2 (Z.leb_le n 0)) by done. by eexists.
Qed.

Lemma main_unfold fuel a w :
  main fromisoformat server now open_error getenv python_int fuel a w
  = match load_environment getenv (log_lines banner w) with
    | (Return env, w1) =>
        match parse_limit python_int (limit_arg a) w1 with
        | (Return lim, w2) =>
            main_body fromisoformat server now open_error fuel env.1 env.2 lim
              (output_arg a) (extract_links_arg a) w2
        | (SysExit code, w2) => (SysExit code, w2)
        | (OutOfFuel, w2) => (OutOfFuel, w2)
        end
    | (SysExit code, w1) => (SysExit code, w1)
    | (OutOfFuel, w1) => (OutOfFuel, w1)
    end.
Proof.
  unfold main.
  unfold mbind at 1 2 3 4 5. unfold M_bind at 1 2 3 4 5. unfold print at 1 2 3.
  cbn iota. rewrite !log_lines_app. cbn [app]. fold banner.
  destruct (load_environment getenv (log_lines banner w)) as [[env| |] w1];
    [|done..].
  by destruct (parse_limit python_int (limit_arg a) w1) as [[lim| |] w2].
Qed.

Lemma main_run fuel a w :
  if config_ok getenv python_int a then
    main fromisoformat server now open_error getenv python_int fuel a w
    = main_body fromisoformat server now open_error fuel
        (default "" (getenv "DISCORD_TOKEN")) (default "" (getenv "CHANNEL_ID"))
        (config_limit python_int a) (output_arg a) (extract_links_arg a)
        (log_lines banner w)
    /\ limit_pos (config_limit python_int a) = true
  else
    exists lines,
      main fromisoformat server now open_error getenv python_int fuel a w
      = (SysExit 1, log_lines (banner ++ lines) w)
      /\ lines <> [].
Proof.
  unfold config_ok. rewrite main_unfold.
  destruct (missing (getenv "DISCORD_TOKEN")) eqn:Htoken.
  { destruct (load_environment_fails (log_lines banner w)) as (lines & -> & Hhead);
      [by rewrite Htoken|].
    exists lines. rewrite log_lines_app. split; [done|]. by destruct lines. }
  destruct (missing (getenv "CHANNEL_ID")) eqn:Hchannel.
  { destruct (load_environment_fails (log_lines banner w)) as (lines & -> & Hhead);
      [by rewrite Htoken, Hchannel|].
    exists lines. rewrite log_lines_app. split; [done|]. by destruct lines. }
  rewrite load_environment_ok by done. cbn [negb andb fst snd].
  destruct (_ || _) eqn:Hlimit.
  - destruct (parse_limit_ok a (log_lines banner w) Hlimit) as [-> Hpos].
    by split.
  - destruct (parse_limit_fails a (log_lines banner w) Hlimit) as [line ->].
    exists [line]. by rewrite log_lines_app.
Qed.

End Starting.

(** X18: [main] reaches the fetch only with a token and a channel
    that are set and not empty and with a limit that is [all] (in any
    letter case) or a number above 0; then it runs the rest of [main]
    with them, after the banner, and the limit it passes on is
    positive.  Otherwise it ends with [sys.exit(1)] after the banner
    and an error line: no request is sent, no file written and the
    clock is not read. *)
Theorem main_checks_configuration
  fromisoformat server now open_error getenv python_int fuel a w :
  let out :=
    main fromisoformat server now open_error getenv python_int fuel a w in
  (config_ok getenv python_int a = true ->
   out
   = main_body fromisoformat server now open_error fuel
       (default "" (getenv "DISCORD_TOKEN")) (default "" (getenv "CHANNEL_ID"))
       (config_limit python_int a) (output_arg a) (extract_links_arg a)
       (log_lines banner w)
   /\ limit_pos (config_limit python_int a) = true)
  /\ (config_ok getenv python_int a = false ->
      out.1 = SysExit 1 /\ sent out.2 = sent w /\ files out.2 = files w
      /\ clock_reads out.2 = clock_reads w
      /\ exists lines,
           lines <> [] /\ console out.2 = console w ++ banner ++ lines).
Proof.
  intros out. subst out.
  pose proof (main_run fromisoformat server now open_error getenv python_int
                fuel a w) as H.
  split; intros Hok; rewrite Hok in H; [done|].
  destruct H as (lines & -> & Hlines). split_and!; [done..|]. by exists lines.
Qed.

(** [main_checks_configuration] with a full environment and the limit
    [250], and with an empty environment. *)
Lemma main_checks_configuration_witness :
  limit_pos (config_limit sample_int (Args "250" "messages" false)) = true
  /\ (main no_parse (channel_server link_channel) noon writable no_env
        sample_int 1 (Args "250" "messages" false) empty_world).1 = SysExit 1.
Proof.
  split.
  - apply (proj1 (main_checks_configuration no_parse
                    (channel_server link_channel) noon writable sample_env
                    sample_int 1 (Args "250" "messages" false) empty_world)).
    reflexivity.
  - apply (proj2 (main_checks_configuration no_parse
                    (channel_server link_channel) noon writable no_env
                    sample_int 1 (Args "250" "messages" false) empty_world)).
    reflexivity.
Defined.

Lemma ascii_lower_a c : ascii_lower c = "a"%char <-> c = "a"%char \/ c = "A"%char.
Proof.
  destruct c as [[] [] [] [] [] [] [] []]; vm_compute;
    split; first [by intros [=] | by intros [[=]|[=]] | by auto].
Qed.

Lemma ascii_lower_l c : ascii_lower c = "l"%char <-> c = "l"%char \/ c = "L"%char.
Proof.
  destruct c as [[] [] [] [] [] [] [] []]; vm_compute;
    split; first [by intros [=] | by intros [[=]|[=]] | by auto].
Qed.

(** X19: a limit argument means no limit exactly when it is the word
    [all] with each letter in either case ([all], [ALL], [aLl], ...),
    whatever [int] would make of it; any other argument gives a limit
    only when [int] reads it as a number above 0. *)
Theorem parse_limit_all python_int arg w :
  (String.eqb (lower arg) "all" = true
   <-> exists c1 c2 c3,
         arg = String c1 (String c2 (String c3 ""))
         /\ (c1 = "a" \/ c1 = "A")%char /\ (c2 = "l" \/ c2 = "L")%char
         /\ (c3 = "l" \/ c3 = "L")%char)
  /\ (String.eqb (lower arg) "all" = true ->
      parse_limit python_int arg w = (Return Infinite, w))
  /\ (String.eqb (lower arg) "all" = false ->
      forall lim,
        (parse_limit python_int arg w).1 = Return lim ->
        exists n, lim = Finite n /\ python_int arg = Some n /\ (0 < n)%Z).
Proof.
  unfold parse_limit. split_and!.
  - rewrite String.eqb_eq. split.
    + destruct arg as [|c1 [|c2 [|c3 [|c4 rest]]]]; try done.
      simpl. intros [= H1 H2 H3]. exists c1, c2, c3.
      by rewrite <- ascii_lower_a, <- !ascii_lower_l.
    + intros (c1 & c2 & c3 & -> & H1 & H2 & H3). simpl.
      apply ascii_lower_a in H1. apply ascii_lower_l in H2, H3.
      by rewrite H1, H2, H3.
  - by intros ->.
  - intros ->. intros lim. destruct (python_int arg) as [n|]; [|done].
    destruct (Z.leb_spec n 0); [done|]. intros [= <-]. by exists n.
Qed.

(** [parse_limit_all] on the argument [ALL]. *)
Lemma parse_limit_all_witness :
  parse_limit sample_int "ALL" empty_world = (Return Infinite, empty_world).
Proof.
  apply (proj1 (proj2 (parse_limit_all sample_int "ALL" empty_world))).
  reflexivity.
Defined.

(** ** The matches of [findall] in the text *)

Lemma string_drop_app (p q : string) :
  string_drop (String.length p) (p +:+ q) = q.
Proof.
  induction p as [|a p IH]; [by destruct q|].
  rewrite string_app_cons. simpl. apply IH.
Qed.

Lemma string_drop_empty n : string_drop n "" = "".
Proof. by destruct n. Qed.

Lemma findall_from_weave s skip :
  exists before gaps,
    length gaps = length (findall_from url_pattern skip s)
    /\ string_drop skip s
       = weave before (findall_from url_pattern skip s) gaps.
Proof.
  revert skip. induction s as [|a s IH]; intros skip.
  { exists "", []. by rewrite string_drop_empty. }
  destruct skip as [|n]; [|apply IH]. cbn [findall_from string_drop].
  rewrite match_at_url_pattern.
  destruct (url_at (String a s)) as [m|] eqn:E.
  - destruct (url_at_Some _ _ E)
      as (scheme & body & post & Hs & Hm & Hscheme & _).
    destruct m as [|a' m'].
    { exfalso. by destruct Hscheme as [-> | ->]. }
    rewrite string_app_cons in Hs. injection Hs as <- ->.
    replace (String.length (String a m') - 1) with (String.length m')
      by (simpl; lia).
    destruct (IH (String.length m')) as (before & gaps & Hlen & Hdrop).
    rewrite string_drop_app in Hdrop.
    exists "", (before :: gaps). split; [simpl; by rewrite Hlen|].
    unfold weave in *. cbn [zip_with join foldr].
    rewrite string_app_nil_l, string_app_assoc, string_app_cons.
    do 2 f_equal. exact Hdrop.
  - destruct (IH 0) as (before & gaps & Hlen & Hdrop). simpl in Hdrop.
    exists (String a before), gaps. split; [done|].
    unfold weave in *. by rewrite string_app_cons, <- Hdrop.
Qed.

(** X20: the URLs [findall] returns for a text are disjoint pieces of
    it, in the order they stand in it: the text is some text before
    the first URL, then each URL followed by the text up to the next
    one. *)
Theorem findall_matches_in_order content :
  exists before gaps,
    length gaps = length (findall url_pattern content)
    /\ content = weave before (findall url_pattern content) gaps.
Proof.
  destruct (findall_from_weave content 0) as (before & gaps & Hlen & Hdrop).
  by exists before, gaps.
Qed.
